(** * ConnectSphere: the chat server of [server.js], embedded and verified

    The server keeps three stores in memory ([serverUsers], [serverRooms],
    [serverMessagesByRoom]) and relies on the socket.io adapter for the
    table of broadcast groups ([socket.rooms]).  Each event handler of
    [io.on('connection', ...)] is a function from the state before the
    event to the state after it, the value handed to the acknowledgement
    callback, and the events emitted to other sockets. *)

From stdpp Require Import gmap strings list fin_maps pretty.
From Stdlib Require Import Ascii NArith.

Open Scope string_scope.
Set Warnings "-clear-no-such-hyp".

(** ** JavaScript strings

    A string is a sequence of code units; the development works with the
    code units below 256, one per [ascii]. *)

Module JS.

(** WhiteSpace and LineTerminator code units (ECMAScript, the set that
    [String.prototype.trim] strips): TAB, LF, VT, FF, CR, SP, NBSP. *)
Definition is_white_space (c : ascii) : bool :=
  let n := N_of_ascii c in
  ((9 <=? n) && (n <=? 13) || (n =? 32) || (n =? 160))%N.

Fixpoint trimStart (s : string) : string :=
  match s with
  | String c s' => if is_white_space c then trimStart s' else s
  | EmptyString => EmptyString
  end.

Fixpoint trimEnd (s : string) : string :=
  match s with
  | String c s' =>
      match trimEnd s' with
      | EmptyString => if is_white_space c then EmptyString else String c EmptyString
      | t => String c t
      end
  | EmptyString => EmptyString
  end.

Definition trim (s : string) : string := trimEnd (trimStart s).

(** Lower-case mapping of one code unit: A-Z, and the Latin-1 capitals
    U+00C0..U+00DE without the multiplication sign U+00D7. *)
Definition lower_unit (c : ascii) : ascii :=
  let n := N_of_ascii c in
  if ((65 <=? n) && (n <=? 90) || (192 <=? n) && (n <=? 222) && negb (n =? 215))%N
  then ascii_of_N (n + 32)
  else c.

Fixpoint toLowerCase (s : string) : string :=
  match s with
  | String c s' => String (lower_unit c) (toLowerCase s')
  | EmptyString => EmptyString
  end.

(** [!x] for an argument that is a string or is missing ([undefined],
    [null]): only the missing value and the empty string are falsy. *)
Definition falsy (x : option string) : bool :=
  match x with
  | None => true
  | Some s => bool_decide (s = "")
  end.

(** Names that every object literal [{}] inherits from
    [Object.prototype].  Reading such a name on a plain object that has
    no own property of that name yields the inherited member (a function,
    or the prototype object for [__proto__]), which is truthy. *)
Definition prototype_names : list string :=
  [ "constructor"; "__defineGetter__"; "__defineSetter__"; "hasOwnProperty";
    "__lookupGetter__"; "__lookupSetter__"; "isPrototypeOf";
    "propertyIsEnumerable"; "toString"; "valueOf"; "__proto__";
    "toLocaleString" ].

Definition is_prototype_name (k : string) : bool :=
  bool_decide (k ∈ prototype_names).

(** The result of the property read [o[k]] on an object used as a
    dictionary. *)
Inductive Property (A : Type) : Type :=
| Own (a : A)
| Inherited (k : string)
| Undefined.
Arguments Own {A} a.
Arguments Inherited {A} k.
Arguments Undefined {A}.

Definition get {A} (o : gmap string A) (k : string) : Property A :=
  match o !! k with
  | Some a => Own a
  | None => if is_prototype_name k then Inherited k else Undefined
  end.

End JS.

(** ** Data model ([types.ts]) *)

Record User := mkUser { user_id : string; user_name : string }.

Record Message := mkMessage {
  msg_id : string;
  msg_roomId : string;
  msg_sender : User;
  msg_text : string;
  msg_timestamp : N
}.

Record Room := mkRoom { room_id : string; room_name : string; room_createdBy : User }.

#[global] Instance User_eq_dec : EqDecision User.
Proof. solve_decision. Defined.
#[global] Instance Room_eq_dec : EqDecision Room.
Proof. solve_decision. Defined.
#[global] Instance Message_eq_dec : EqDecision Message.
Proof. solve_decision. Defined.

(** ** Server state

    [serverUsers] and [serverMessagesByRoom] are object literals used as
    dictionaries; the maps below hold their own properties.
    [serverUsers] is read and written at [socket.id] only, a token that
    the transport issues for each connection; [serverMessagesByRoom] is
    read at room ids that clients send, with [JS.get].

    [sockets] is the adapter's table: for each connected socket id, the
    set [socket.rooms] of groups it belongs to.  A socket is put into the
    group named by its own id when it connects. *)

Record ServerState := mkState {
  serverUsers : gmap string User;
  serverRooms : list Room;
  serverMessagesByRoom : gmap string (list Message);
  sockets : gmap string (gset string)
}.

Definition initial : ServerState :=
  {| serverUsers := ∅; serverRooms := []; serverMessagesByRoom := ∅; sockets := ∅ |}.

(** ** Replies and emitted events *)

Inductive ServerEvent :=
| initialRooms (rooms : list Room)
| roomCreated (room : Room)
| newMessage (message : Message).

(** One emission: the sockets it is delivered to, and the event. *)
Record Emission := mkEmission { recipients : gset string; event : ServerEvent }.

(** The value of [serverMessagesByRoom[roomId] || []]. *)
Inductive Backlog :=
| Messages (ms : list Message)
| NotAnArray (k : string).

(** What the handler hands to the acknowledgement callback that the
    client passed, with the optional fields of [ClientToServerEvents];
    [Throws] is a handler that ends in an uncaught exception and never
    calls back; [NoReply] is an event that carries no callback
    (connection, disconnect). *)
Inductive Reply :=
| LoginReply (currentUser : option User) (rooms : option (list Room)) (error : option string)
| CreateRoomReply (room : option Room) (isNew : option bool) (error : option string)
| JoinRoomReply (messages : option Backlog) (error : option string)
| SendMessageReply (success : option bool) (message : option Message) (error : option string)
| GetMessagesReply (messages : Backlog)
| GetAllRoomsReply (rooms : list Room)
| Throws (exn : string)
| NoReply.

Definition reply_error (r : Reply) : option string :=
  match r with
  | LoginReply _ _ e | CreateRoomReply _ _ e | JoinRoomReply _ e
  | SendMessageReply _ _ e => e
  | GetMessagesReply _ | GetAllRoomsReply _ | Throws _ | NoReply => None
  end.

Record Output := mkOutput { reply : Reply; emitted : list Emission }.

(** The error messages of the handlers. *)
Definition err_username_required := "Username is required.".
Definition err_not_authenticated := "User not authenticated.".
Definition err_room_name_required := "Room name is required.".
Definition err_room_exists := "Room already exists. Joining existing room.".
Definition err_join_not_authenticated := "User not authenticated for joining room.".
Definition err_room_not_found := "Room not found.".
Definition err_send_not_authenticated := "User not authenticated for sending message.".
Definition err_id_and_text_required := "Room ID and text are required.".
Definition err_room_does_not_exist := "Room does not exist.".
Definition exn_push_not_a_function :=
  "TypeError: serverMessagesByRoom[roomId].push is not a function".

(** The error taxonomy of the specification, and the class of each
    message. *)
Inductive ErrorKind := InvalidInput | Unauthenticated | NotFound | Conflict.

#[global] Instance ErrorKind_eq_dec : EqDecision ErrorKind.
Proof. solve_decision. Defined.

Definition error_kind (e : string) : option ErrorKind :=
  if bool_decide (e = err_username_required) then Some InvalidInput
  else if bool_decide (e = err_room_name_required) then Some InvalidInput
  else if bool_decide (e = err_id_and_text_required) then Some InvalidInput
  else if bool_decide (e = err_not_authenticated) then Some Unauthenticated
  else if bool_decide (e = err_join_not_authenticated) then Some Unauthenticated
  else if bool_decide (e = err_send_not_authenticated) then Some Unauthenticated
  else if bool_decide (e = err_room_not_found) then Some NotFound
  else if bool_decide (e = err_room_does_not_exist) then Some NotFound
  else if bool_decide (e = err_room_exists) then Some Conflict
  else None.

Definition fails_with (k : ErrorKind) (r : Reply) : Prop :=
  ∃ e, reply_error r = Some e ∧ error_kind e = Some k.

(** ** The socket.io adapter *)

(** [socket.join(room)] and [socket.leave(room)] for the socket [sid]. *)
Definition socket_join (sid room : string) (t : gmap string (gset string)) :
  gmap string (gset string) :=
  alter (λ rs, rs ∪ {[room]}) sid t.

Definition socket_leave (sid room : string) (t : gmap string (gset string)) :
  gmap string (gset string) :=
  alter (λ rs, rs ∖ {[room]}) sid t.

(** [socket.rooms] of a connected socket. *)
Definition rooms_of (t : gmap string (gset string)) (sid : string) : gset string :=
  default ∅ (t !! sid).

(** [io.to(room)]: the sockets whose group set contains [room]. *)
Definition io_to (room : string) (t : gmap string (gset string)) : gset string :=
  dom (filter (λ p, room ∈ p.2) t).

(** [io.emit]: every connected socket. *)
Definition io_all (t : gmap string (gset string)) : gset string := dom t.

(** ** State updates *)

Definition set_users (f : gmap string User → gmap string User) (s : ServerState) :=
  mkState (f (serverUsers s)) (serverRooms s) (serverMessagesByRoom s) (sockets s).
Definition set_rooms (f : list Room → list Room) (s : ServerState) :=
  mkState (serverUsers s) (f (serverRooms s)) (serverMessagesByRoom s) (sockets s).
Definition set_messages
  (f : gmap string (list Message) → gmap string (list Message)) (s : ServerState) :=
  mkState (serverUsers s) (serverRooms s) (f (serverMessagesByRoom s)) (sockets s).
Definition set_sockets
  (f : gmap string (gset string) → gmap string (gset string)) (s : ServerState) :=
  mkState (serverUsers s) (serverRooms s) (serverMessagesByRoom s) (f (sockets s)).

Definition answer (s : ServerState) (r : Reply) : ServerState * Output :=
  (s, mkOutput r []).

(** The string behind an argument that has passed its [!x] test. *)
Definition str (x : option string) : string := default "" x.

(** [serverMessagesByRoom[roomId] || []] *)
Definition or_empty (p : JS.Property (list Message)) : Backlog :=
  match p with
  | JS.Own ms => Messages ms
  | JS.Inherited k => NotAnArray k
  | JS.Undefined => Messages []
  end.

(** ** The handlers of [io.on('connection', socket => ...)]

    [sid] is [socket.id].  [Date.now()] and
    [Math.random().toString(36).substr(2, 5)] are read from the
    environment: [now], [now'] and [rnd] are the values they returned. *)

(** [socket.on('login', (username, callback) => ...)] *)
Definition login (s : ServerState) (sid : string) (username : option string) :
  ServerState * Output :=
  if JS.falsy username || JS.falsy (JS.trim <$> username) then
    answer s (LoginReply None None (Some err_username_required))
  else
    let user := {| user_id := sid; user_name := JS.trim (str username) |} in
    let s := set_users <[sid := user]> s in
    answer s (LoginReply (Some user) (Some (serverRooms s)) None).

(** [r => r.name.toLowerCase() === trimmedRoomName.toLowerCase()] *)
Definition same_name (trimmedRoomName : string) (r : Room) : bool :=
  bool_decide (JS.toLowerCase (room_name r) = JS.toLowerCase trimmedRoomName).

(** [r => r.id === roomId] *)
Definition has_id (roomId : string) (r : Room) : bool :=
  bool_decide (room_id r = roomId).

(** [`room-${Date.now()}-${Math.random().toString(36).substr(2, 5)}`] *)
Definition fresh_room_id (now : N) (rnd : string) : string :=
  "room-" +:+ pretty now +:+ "-" +:+ rnd.

(** [`msg-${Date.now()}-${Math.random().toString(36).substr(2, 5)}`] *)
Definition fresh_msg_id (now : N) (rnd : string) : string :=
  "msg-" +:+ pretty now +:+ "-" +:+ rnd.

(** [socket.on('createRoom', ({ roomName }, callback) => ...)] *)
Definition createRoom (s : ServerState) (sid : string) (roomName : option string)
  (now : N) (rnd : string) : ServerState * Output :=
  match serverUsers s !! sid with
  | None => answer s (CreateRoomReply None None (Some err_not_authenticated))
  | Some creatingUser =>
      if JS.falsy roomName || JS.falsy (JS.trim <$> roomName) then
        answer s (CreateRoomReply None None (Some err_room_name_required))
      else
        let trimmedRoomName := JS.trim (str roomName) in
        match find (same_name trimmedRoomName) (serverRooms s) with
        | Some existingRoom =>
            (set_sockets (socket_join sid (room_id existingRoom)) s,
             mkOutput (CreateRoomReply (Some existingRoom) (Some false) (Some err_room_exists)) [])
        | None =>
            let newRoom :=
              {| room_id := fresh_room_id now rnd;
                 room_name := trimmedRoomName;
                 room_createdBy := creatingUser |} in
            let s := set_rooms (λ rooms, (rooms ++ [newRoom])%list) s in
            let s := set_messages <[room_id newRoom := []]> s in
            let e := mkEmission (io_all (sockets s)) (roomCreated newRoom) in
            let s := set_sockets (socket_join sid (room_id newRoom)) s in
            (s, mkOutput (CreateRoomReply (Some newRoom) (Some true) None) [e])
        end
  end.

(** The [socket.rooms.forEach] of [joinRoom]: visit the groups of the
    socket and leave each one that is neither its own nor the target. *)
Definition leave_previous (sid roomId : string) (t : gmap string (gset string)) :
  gmap string (gset string) :=
  set_fold
    (λ roomIn t,
       if bool_decide (roomIn ≠ sid ∧ roomIn ≠ roomId)
       then socket_leave sid roomIn t
       else t)
    t (rooms_of t sid).

(** [socket.on('joinRoom', (roomId, callback) => ...)] *)
Definition joinRoom (s : ServerState) (sid : string) (roomId : string) :
  ServerState * Output :=
  match serverUsers s !! sid with
  | None => answer s (JoinRoomReply None (Some err_join_not_authenticated))
  | Some user =>
      match find (has_id roomId) (serverRooms s) with
      | None => answer s (JoinRoomReply None (Some err_room_not_found))
      | Some room =>
          let s := set_sockets (leave_previous sid roomId) s in
          let s := set_sockets (socket_join sid roomId) s in
          answer s (JoinRoomReply
                      (Some (or_empty (JS.get (serverMessagesByRoom s) roomId))) None)
      end
  end.

(** The guard [if (!serverMessagesByRoom[roomId]) { ... }] of
    [sendMessage]: [None] when it returns with "Room does not exist.",
    otherwise the log table after it. *)
Definition ensure_log (s : ServerState) (roomId : string) :
  option (gmap string (list Message)) :=
  match JS.get (serverMessagesByRoom s) roomId with
  | JS.Undefined =>
      match find (has_id roomId) (serverRooms s) with
      | Some _ => Some (<[roomId := []]> (serverMessagesByRoom s))
      | None => None
      end
  | JS.Own _ | JS.Inherited _ => Some (serverMessagesByRoom s)
  end.

(** [socket.on('sendMessage', ({ roomId, text }, callback) => ...)] *)
Definition sendMessage (s : ServerState) (sid : string) (roomId text : option string)
  (now : N) (rnd : string) (now' : N) : ServerState * Output :=
  match serverUsers s !! sid with
  | None => answer s (SendMessageReply None None (Some err_send_not_authenticated))
  | Some sender =>
      if JS.falsy roomId || JS.falsy text || JS.falsy (JS.trim <$> text) then
        answer s (SendMessageReply None None (Some err_id_and_text_required))
      else
        let roomId := str roomId in
        match ensure_log s roomId with
        | None => answer s (SendMessageReply None None (Some err_room_does_not_exist))
        | Some logs =>
            let s := set_messages (λ _, logs) s in
            let message :=
              {| msg_id := fresh_msg_id now rnd;
                 msg_roomId := roomId;
                 msg_sender := sender;
                 msg_text := JS.trim (str text);
                 msg_timestamp := now' |} in
            match JS.get logs roomId with
            | JS.Own log =>
                let s := set_messages <[roomId := (log ++ [message])%list]> s in
                let e := mkEmission (io_to roomId (sockets s)) (newMessage message) in
                (s, mkOutput (SendMessageReply (Some true) (Some message) None) [e])
            | JS.Inherited _ | JS.Undefined =>
                answer s (Throws exn_push_not_a_function)
            end
        end
  end.

(** [socket.on('getMessagesForRoom', (roomId, callback) => ...)] *)
Definition getMessagesForRoom (s : ServerState) (sid : string) (roomId : string) :
  ServerState * Output :=
  match serverUsers s !! sid with
  | None => answer s (GetMessagesReply (Messages []))
  | Some user =>
      answer s (GetMessagesReply (or_empty (JS.get (serverMessagesByRoom s) roomId)))
  end.

(** [socket.on('getAllRooms', callback => ...)] *)
Definition getAllRooms (s : ServerState) (sid : string) : ServerState * Output :=
  answer s (GetAllRoomsReply (serverRooms s)).

(** [socket.on('disconnect', reason => ...)] *)
Definition disconnect (s : ServerState) (sid : string) : ServerState :=
  match serverUsers s !! sid with
  | Some user => set_users (delete sid) s
  | None => s
  end.

(** [io.on('connection', socket => ...)]: the greeting sent to the new
    socket. *)
Definition connection (s : ServerState) (sid : string) : Emission :=
  mkEmission {[sid]} (initialRooms (serverRooms s)).

(** ** The server as a transition system *)

Inductive Request :=
| Login (username : option string)
| CreateRoom (roomName : option string) (now : N) (rnd : string)
| JoinRoom (roomId : string)
| SendMessage (roomId text : option string) (now : N) (rnd : string) (now' : N)
| GetMessagesForRoom (roomId : string)
| GetAllRooms.

Inductive Action :=
| Connect (sid : string)
| Disconnect (sid : string)
| Emit (sid : string) (req : Request).

Definition handle (s : ServerState) (sid : string) (req : Request) :
  ServerState * Output :=
  match req with
  | Login username => login s sid username
  | CreateRoom roomName now rnd => createRoom s sid roomName now rnd
  | JoinRoom roomId => joinRoom s sid roomId
  | SendMessage roomId text now rnd now' => sendMessage s sid roomId text now rnd now'
  | GetMessagesForRoom roomId => getMessagesForRoom s sid roomId
  | GetAllRooms => getAllRooms s sid
  end.

(** A socket gets its own group when it connects and is taken out of all
    groups before its [disconnect] handler runs; requests arrive on
    connected sockets only. *)
Definition step (s : ServerState) (a : Action) : ServerState * Output :=
  match a with
  | Connect sid =>
      match sockets s !! sid with
      | Some _ => answer s NoReply
      | None =>
          (set_sockets <[sid := {[sid]}]> s, mkOutput NoReply [connection s sid])
      end
  | Disconnect sid =>
      match sockets s !! sid with
      | Some _ => answer (disconnect (set_sockets (delete sid) s) sid) NoReply
      | None => answer s NoReply
      end
  | Emit sid req =>
      match sockets s !! sid with
      | Some _ => handle s sid req
      | None => answer s NoReply
      end
  end.

Definition next (s : ServerState) (a : Action) : ServerState := (step s a).1.

(** The state after a sequence of actions. *)
Definition final (s : ServerState) (acts : list Action) : ServerState :=
  foldl next s acts.

(** The run of a sequence of actions: each action with the state it was
    taken in and what it produced. *)
Fixpoint history (s : ServerState) (acts : list Action) :
  list (ServerState * Action * Output) :=
  match acts with
  | [] => []
  | a :: acts => (s, a, (step s a).2) :: history (next s a) acts
  end.

Inductive reachable : ServerState → Prop :=
| reachable_initial : reachable initial
| reachable_step s a : reachable s → reachable (next s a).

(** ** Properties of states and runs *)

(** The socket [sid] is connected and has logged in. *)
Definition authenticated (s : ServerState) (sid : string) : Prop :=
  is_Some (sockets s !! sid) ∧ is_Some (serverUsers s !! sid).

(** The socket [sid] is in the broadcast group of [room]. *)
Definition subscribed (s : ServerState) (sid room : string) : Prop :=
  room ∈ rooms_of (sockets s) sid.

(** Single membership: apart from the group named by its own id, a socket
    is in at most one group. *)
Definition single_membership (s : ServerState) : Prop :=
  ∀ sid r1 r2,
    subscribed s sid r1 → subscribed s sid r2 → r1 ≠ sid → r2 ≠ sid → r1 = r2.

(** Delivery of a [newMessage] emission [e] for room [R]: to every
    subscriber of [R], to no socket subscribed to a different room, and to
    no socket without a room. *)
Definition delivered_to_room_only (s : ServerState) (R : string) (e : Emission) : Prop :=
  (∀ c, subscribed s c R → c ∈ recipients e) ∧
  (∀ c R', subscribed s c R' → R' ≠ c → R' ≠ R → c ∉ recipients e) ∧
  (∀ c, (∀ R', subscribed s c R' → R' = c) → c ∉ recipients e).

(** Referential integrity: the [roomId] of every stored message is the id
    of a room of the directory. *)
Definition referential_integrity (s : ServerState) : Prop :=
  ∀ k log m,
    serverMessagesByRoom s !! k = Some log → m ∈ log →
    ∃ r, r ∈ serverRooms s ∧ room_id r = msg_roomId m.

(** Every log is filed under the id of a room of the directory, and holds
    messages of that room only. *)
Definition logs_well_keyed (s : ServerState) : Prop :=
  ∀ k log,
    serverMessagesByRoom s !! k = Some log →
    (∃ r, r ∈ serverRooms s ∧ room_id r = k) ∧ (∀ m, m ∈ log → msg_roomId m = k).

(** The room's name is [k] up to letter case ([k] in lower case). *)
Definition named (k : string) (r : Room) : bool :=
  bool_decide (JS.toLowerCase (room_name r) = k).

(** A [createRoom] request from an authenticated connection whose trimmed
    name is [k] up to letter case. *)
Definition creates_named (k : string) (h : ServerState * Action * Output) : bool :=
  match h with
  | (pre, Emit sid (CreateRoom (Some roomName) _ _), _) =>
      bool_decide (authenticated pre sid)
      && bool_decide (JS.toLowerCase (JS.trim roomName) = k)
  | _ => false
  end.

Definition replies_of (hs : list (ServerState * Action * Output)) : list Reply :=
  (λ h, reply h.2) <$> hs.

(** An argument that is missing or consists of white space only. *)
Definition blank (x : option string) : Prop :=
  JS.trim (str x) = "".

(** An action that leaves the log of room [R] alone: it is neither a
    [sendMessage] to [R] nor a [createRoom] that draws [R] as its id. *)
Definition keeps_log (R : string) (a : Action) : Prop :=
  match a with
  | Emit _ (SendMessage roomId _ _ _ _) => roomId ≠ Some R
  | Emit _ (CreateRoom _ now rnd) => fresh_room_id now rnd ≠ R
  | _ => True
  end.

(** ** Well-formed states

    What the handlers maintain about the four stores. *)

(** Every identity is bound under its own socket id, carries a trimmed,
    non-empty name, and belongs to a connected socket. *)
Definition identities_well_formed (s : ServerState) : Prop :=
  ∀ sid u,
    serverUsers s !! sid = Some u →
    user_id u = sid ∧ user_name u ≠ "" ∧ JS.trim (user_name u) = user_name u ∧
    is_Some (sockets s !! sid).

(** Every room of the directory has a trimmed, non-empty name and a
    generated id, and no two rooms have the same name up to letter case. *)
Definition directory_well_formed (s : ServerState) : Prop :=
  (∀ r, r ∈ serverRooms s →
        room_name r ≠ "" ∧ JS.trim (room_name r) = room_name r ∧
        ∃ now rnd, room_id r = fresh_room_id now rnd) ∧
  NoDup ((λ r, JS.toLowerCase (room_name r)) <$> serverRooms s).

(** Every room of the directory has a log. *)
Definition rooms_have_logs (s : ServerState) : Prop :=
  ∀ r, r ∈ serverRooms s → is_Some (serverMessagesByRoom s !! room_id r).

(** Every stored message has a trimmed, non-empty text and a sender with a
    non-empty name. *)
Definition messages_well_formed (s : ServerState) : Prop :=
  ∀ k log m,
    serverMessagesByRoom s !! k = Some log → m ∈ log →
    msg_text m ≠ "" ∧ JS.trim (msg_text m) = msg_text m ∧
    user_name (msg_sender m) ≠ "".

(** Every connected socket is in its own group; any other group it is in
    is the id of a room of the directory, and then the socket has logged
    in. *)
Definition groups_well_formed (s : ServerState) : Prop :=
  ∀ sid rs,
    sockets s !! sid = Some rs →
    sid ∈ rs ∧
    ∀ g, g ∈ rs → g ≠ sid →
         (∃ r, r ∈ serverRooms s ∧ room_id r = g) ∧ is_Some (serverUsers s !! sid).

Definition well_formed (s : ServerState) : Prop :=
  identities_well_formed s ∧ directory_well_formed s ∧ rooms_have_logs s ∧
  logs_well_keyed s ∧ messages_well_formed s ∧ groups_well_formed s.

(** ** Observations of a run *)

(** The requests that are refused to a connection without an identity. *)
Definition requires_login (req : Request) : bool :=
  match req with
  | CreateRoom _ _ _ | JoinRoom _ | SendMessage _ _ _ _ _ => true
  | Login _ | GetMessagesForRoom _ | GetAllRooms => false
  end.

(** The events of an output that are delivered to the socket [sid]. *)
Definition events_to (sid : string) (out : Output) : list ServerEvent :=
  event <$> List.filter (λ e, bool_decide (sid ∈ recipients e)) (emitted out).

(** The rooms announced to [sid] by [roomCreated] during a run, in
    order. *)
Definition announced_to (sid : string) (hs : list (ServerState * Action * Output)) :
  list Room :=
  flat_map
    (λ h, flat_map (λ ev, match ev with roomCreated r => [r] | _ => [] end)
            (events_to sid h.2))
    hs.

(** The messages of room [R] delivered to [sid] by [newMessage] during a
    run, in order. *)
Definition delivered_to (sid R : string) (hs : list (ServerState * Action * Output)) :
  list Message :=
  flat_map
    (λ h, flat_map
            (λ ev, match ev with
                   | newMessage m => if bool_decide (msg_roomId m = R) then [m] else []
                   | _ => []
                   end)
            (events_to sid h.2))
    hs.

(** The messages that [sendMessage] accepted for room [R] during a run:
    those it answered with [{success: true, message}], in order. *)
Definition accepted_for (R : string) (hs : list (ServerState * Action * Output)) :
  list Message :=
  flat_map
    (λ h, match h with
          | (_, Emit _ (SendMessage roomId _ _ _ _),
             {| reply := SendMessageReply (Some true) (Some m) None |}) =>
              if bool_decide (roomId = Some R) then [m] else []
          | _ => []
          end)
    hs.

(** Actions during which the socket [sid] stays where it is: it neither
    disconnects nor joins a room. *)
Definition stays (sid : string) (a : Action) : Prop :=
  match a with
  | Disconnect sid' => sid' ≠ sid
  | Emit sid' (JoinRoom _) => sid' ≠ sid
  | _ => True
  end.

(** Actions during which the socket [sid] does not disconnect. *)
Definition keeps_connection (sid : string) (a : Action) : Prop :=
  match a with
  | Disconnect sid' => sid' ≠ sid
  | _ => True
  end.

(** Actions that do not draw [R] as the id of a new room. *)
Definition keeps_id (R : string) (a : Action) : Prop :=
  match a with
  | Emit _ (CreateRoom _ now rnd) => fresh_room_id now rnd ≠ R
  | _ => True
  end.

(** All messages delivered to [sid] by [newMessage] during a run, in
    order. *)
Definition inbox (sid : string) (hs : list (ServerState * Action * Output)) :
  list Message :=
  flat_map
    (λ h, flat_map (λ ev, match ev with newMessage m => [m] | _ => [] end)
            (events_to sid h.2))
    hs.

(** Actions that are not [createRoom] requests. *)
Definition creates_nothing (a : Action) : Prop :=
  match a with
  | Emit _ (CreateRoom _ _ _) => False
  | _ => True
  end.

(** ** The client's reducers ([App.tsx])

    The state updates that the client applies to its list of rooms and to
    its table of messages when an event arrives. *)

Module Client.

(** [newSocket.on('roomCreated', newRoom => setRooms(prevRooms => ...))] *)
Definition onRoomCreated (newRoom : Room) (prevRooms : list Room) : list Room :=
  match find (has_id (room_id newRoom)) prevRooms with
  | Some _ => prevRooms
  | None => (prevRooms ++ [newRoom])%list
  end.

(** [newSocket.on('newMessage', newMessage => setMessagesByRoom(prevMessages => ...))];
    [None] when the spread of [prevMessages[newMessage.roomId] || []] throws
    because the value read is inherited from [Object.prototype]. *)
Definition onNewMessage (newMessage : Message) (prevMessages : gmap string (list Message)) :
  option (gmap string (list Message)) :=
  match JS.get prevMessages (msg_roomId newMessage) with
  | JS.Own ms => Some (<[msg_roomId newMessage := (ms ++ [newMessage])%list]> prevMessages)
  | JS.Undefined => Some (<[msg_roomId newMessage := [newMessage]]> prevMessages)
  | JS.Inherited _ => None
  end.

(** The callback of [fetchMessagesForRoom]:
    [setMessagesByRoom(prev => ({...prev, [roomId]: response.messages}))] *)
Definition onJoined (roomId : string) (messages : list Message)
  (prev : gmap string (list Message)) : gmap string (list Message) :=
  <[roomId := messages]> prev.

(** The table after the [newMessage] events [ms], handled in the order
    they arrive. *)
Fixpoint receive (ms : list Message) (prev : gmap string (list Message)) :
  option (gmap string (list Message)) :=
  match ms with
  | [] => Some prev
  | m :: ms => onNewMessage m prev ≫= receive ms
  end.

(** What the client submits.  [socket] is [socketRef.current]: [None]
    when it is [null], otherwise whether the socket is connected.  The
    result is the payload of the event that is emitted, [None] when the
    guards stop the submission. *)

(** [handleLogin] and [emitLogin] of [App.tsx]; a login that waits for
    the connection is emitted with the same argument. *)
Definition handleLogin (socket : option bool) (username : string) : option string :=
  if bool_decide (JS.trim username = "") then None
  else match socket with
       | Some _ => Some (JS.trim username)
       | None => None
       end.

(** [handleCreateRoom] of [App.tsx] *)
Definition handleCreateRoom (currentUser : option User) (socket : option bool)
  (roomName : string) : option string :=
  match currentUser, socket with
  | Some _, Some true => Some roomName
  | _, _ => None
  end.

(** [handleCreateRoomSubmit] of [ChatView.tsx], with [onCreateRoom] bound
    to [handleCreateRoom] *)
Definition handleCreateRoomSubmit (currentUser : option User) (socket : option bool)
  (newRoomName : string) (isAppLoading : bool) : option string :=
  if negb (bool_decide (JS.trim newRoomName = "")) && negb isAppLoading
  then handleCreateRoom currentUser socket newRoomName
  else None.

(** [handleSendMessage] of [App.tsx] *)
Definition handleSendMessage (currentUser : option User) (socket : option bool)
  (roomId text : string) : option (string * string) :=
  match currentUser, socket with
  | Some _, Some true =>
      if bool_decide (JS.trim text = "") then None else Some (roomId, text)
  | _, _ => None
  end.

(** [handleSendMessageSubmit] of [ChatView.tsx], with [onSendMessage]
    bound to [handleSendMessage] *)
Definition handleSendMessageSubmit (currentUser : option User) (socket : option bool)
  (selectedRoomId : option string) (newMessage : string)
  (isAppLoading isFetchingMessages : bool) : option (string * string) :=
  if negb (JS.falsy selectedRoomId) && negb (bool_decide (JS.trim newMessage = ""))
     && negb isAppLoading && negb isFetchingMessages
  then handleSendMessage currentUser socket (str selectedRoomId) newMessage
  else None.

End Client.

(** ** Outcomes of the handlers *)

(** The outcomes of [sendMessage] for a logged-in sender. *)
Inductive SendOutcome (s : ServerState) (sender : User) (roomId text : option string)
  (now : N) (rnd : string) (now' : N) : ServerState * Output → Prop :=
| send_invalid :
    roomId = None ∨ roomId = Some "" ∨ blank text →
    SendOutcome s sender roomId text now rnd now'
      (answer s (SendMessageReply None None (Some err_id_and_text_required)))
| send_not_found R :
    roomId = Some R → R ≠ "" → ¬ blank text →
    serverMessagesByRoom s !! R = None → JS.is_prototype_name R = false →
    find (has_id R) (serverRooms s) = None →
    SendOutcome s sender roomId text now rnd now'
      (answer s (SendMessageReply None None (Some err_room_does_not_exist)))
| send_throws R :
    roomId = Some R → R ≠ "" → ¬ blank text →
    serverMessagesByRoom s !! R = None → JS.is_prototype_name R = true →
    SendOutcome s sender roomId text now rnd now'
      (answer s (Throws exn_push_not_a_function))
| send_appended R log :
    roomId = Some R → R ≠ "" → ¬ blank text →
    (serverMessagesByRoom s !! R = Some log
     ∨ (log = [] ∧ serverMessagesByRoom s !! R = None
        ∧ JS.is_prototype_name R = false
        ∧ is_Some (find (has_id R) (serverRooms s)))) →
    let message := mkMessage (fresh_msg_id now rnd) R sender (JS.trim (str text)) now' in
    SendOutcome s sender roomId text now rnd now'
      (set_messages <[R := (log ++ [message])%list]> s,
       mkOutput (SendMessageReply (Some true) (Some message) None)
         [mkEmission (io_to R (sockets s)) (newMessage message)]).

(** The outcomes of [createRoom]. *)
Inductive CreateOutcome (s : ServerState) (sid : string) (roomName : option string)
  (now : N) (rnd : string) : ServerState * Output → Prop :=
| create_unauthenticated :
    serverUsers s !! sid = None →
    CreateOutcome s sid roomName now rnd
      (answer s (CreateRoomReply None None (Some err_not_authenticated)))
| create_invalid creatingUser :
    serverUsers s !! sid = Some creatingUser → blank roomName →
    CreateOutcome s sid roomName now rnd
      (answer s (CreateRoomReply None None (Some err_room_name_required)))
| create_existing creatingUser existingRoom :
    serverUsers s !! sid = Some creatingUser → ¬ blank roomName →
    find (same_name (JS.trim (str roomName))) (serverRooms s) = Some existingRoom →
    CreateOutcome s sid roomName now rnd
      (set_sockets (socket_join sid (room_id existingRoom)) s,
       mkOutput (CreateRoomReply (Some existingRoom) (Some false) (Some err_room_exists)) [])
| create_new creatingUser :
    serverUsers s !! sid = Some creatingUser → ¬ blank roomName →
    find (same_name (JS.trim (str roomName))) (serverRooms s) = None →
    let newRoom := mkRoom (fresh_room_id now rnd) (JS.trim (str roomName)) creatingUser in
    CreateOutcome s sid roomName now rnd
      (mkState (serverUsers s) (serverRooms s ++ [newRoom])%list
         (<[room_id newRoom := []]> (serverMessagesByRoom s))
         (socket_join sid (room_id newRoom) (sockets s)),
       mkOutput (CreateRoomReply (Some newRoom) (Some true) None)
         [mkEmission (io_all (sockets s)) (roomCreated newRoom)]).

(** The outcomes of [joinRoom]. *)
Inductive JoinOutcome (s : ServerState) (sid roomId : string) :
  ServerState * Output → Prop :=
| join_unauthenticated :
    serverUsers s !! sid = None →
    JoinOutcome s sid roomId
      (answer s (JoinRoomReply None (Some err_join_not_authenticated)))
| join_not_found user :
    serverUsers s !! sid = Some user →
    find (has_id roomId) (serverRooms s) = None →
    JoinOutcome s sid roomId (answer s (JoinRoomReply None (Some err_room_not_found)))
| join_joined user room :
    serverUsers s !! sid = Some user →
    find (has_id roomId) (serverRooms s) = Some room →
    JoinOutcome s sid roomId
      (set_sockets (λ t, socket_join sid roomId (leave_previous sid roomId t)) s,
       mkOutput
         (JoinRoomReply (Some (or_empty (JS.get (serverMessagesByRoom s) roomId))) None)
         []).

(** The two successful replies of [createRoom]. *)
Definition created_reply (room : Room) : Reply :=
  CreateRoomReply (Some room) (Some true) None.
Definition existing_reply (room : Room) : Reply :=
  CreateRoomReply (Some room) (Some false) (Some err_room_exists).

(** The transitions of the server: what [step] does, case by case.  A
    request that is refused, a read, and an event on a socket that is not
    connected leave the state alone and emit nothing ([transition_silent]). *)
Inductive Transition (s : ServerState) : Action → ServerState * Output → Prop :=
| transition_silent a r :
    Transition s a (answer s r)
| transition_connect sid :
    sockets s !! sid = None →
    Transition s (Connect sid)
      (set_sockets <[sid := {[sid]}]> s, mkOutput NoReply [connection s sid])
| transition_disconnect sid rs :
    sockets s !! sid = Some rs →
    Transition s (Disconnect sid)
      (answer (mkState (delete sid (serverUsers s)) (serverRooms s)
                 (serverMessagesByRoom s) (delete sid (sockets s))) NoReply)
| transition_login sid rs username :
    sockets s !! sid = Some rs → ¬ blank username →
    let user := mkUser sid (JS.trim (str username)) in
    Transition s (Emit sid (Login username))
      (answer (set_users <[sid := user]> s)
         (LoginReply (Some user) (Some (serverRooms s)) None))
| transition_create_existing sid rs creatingUser roomName now rnd existingRoom :
    sockets s !! sid = Some rs → serverUsers s !! sid = Some creatingUser →
    ¬ blank roomName →
    find (same_name (JS.trim (str roomName))) (serverRooms s) = Some existingRoom →
    Transition s (Emit sid (CreateRoom roomName now rnd))
      (set_sockets (socket_join sid (room_id existingRoom)) s,
       mkOutput (existing_reply existingRoom) [])
| transition_create_new sid rs creatingUser roomName now rnd :
    sockets s !! sid = Some rs → serverUsers s !! sid = Some creatingUser →
    ¬ blank roomName →
    find (same_name (JS.trim (str roomName))) (serverRooms s) = None →
    let newRoom := mkRoom (fresh_room_id now rnd) (JS.trim (str roomName)) creatingUser in
    Transition s (Emit sid (CreateRoom roomName now rnd))
      (mkState (serverUsers s) (serverRooms s ++ [newRoom])%list
         (<[room_id newRoom := []]> (serverMessagesByRoom s))
         (socket_join sid (room_id newRoom) (sockets s)),
       mkOutput (created_reply newRoom)
         [mkEmission (io_all (sockets s)) (roomCreated newRoom)])
| transition_join sid rs user roomId room :
    sockets s !! sid = Some rs → serverUsers s !! sid = Some user →
    find (has_id roomId) (serverRooms s) = Some room →
    Transition s (Emit sid (JoinRoom roomId))
      (set_sockets (λ t, socket_join sid roomId (leave_previous sid roomId t)) s,
       mkOutput
         (JoinRoomReply (Some (or_empty (JS.get (serverMessagesByRoom s) roomId))) None)
         [])
| transition_send sid rs sender R text now rnd now' log :
    sockets s !! sid = Some rs → serverUsers s !! sid = Some sender →
    R ≠ "" → ¬ blank text →
    (serverMessagesByRoom s !! R = Some log
     ∨ (log = [] ∧ serverMessagesByRoom s !! R = None
        ∧ JS.is_prototype_name R = false
        ∧ is_Some (find (has_id R) (serverRooms s)))) →
    let message := mkMessage (fresh_msg_id now rnd) R sender (JS.trim (str text)) now' in
    Transition s (Emit sid (SendMessage (Some R) text now rnd now'))
      (set_messages <[R := (log ++ [message])%list]> s,
       mkOutput (SendMessageReply (Some true) (Some message) None)
         [mkEmission (io_to R (sockets s)) (newMessage message)]).

(** ** Sample runs *)

(** A state reached by one connection that logged in as alice. *)
Definition alice_online : ServerState :=
  final initial [Connect "s1"; Emit "s1" (Login (Some "alice"))].

(** Alice has created the room "general"; Bob is online on a second
    connection. *)
Definition general_created : ServerState :=
  final initial
    [Connect "s1"; Emit "s1" (Login (Some "alice"));
     Emit "s1" (CreateRoom (Some "general") 1 "aaaaa");
     Connect "s2"; Emit "s2" (Login (Some "bob"))].

(** Alice has created two rooms on one connection. *)
Definition two_rooms_created : ServerState :=
  final initial
    [Connect "s1"; Emit "s1" (Login (Some "alice"));
     Emit "s1" (CreateRoom (Some "general") 1 "aaaaa");
     Emit "s1" (CreateRoom (Some "random") 2 "bbbbb")].

(** Alice is in the groups of both rooms she created; Bob has joined
    "general". *)
Definition bob_in_general : ServerState :=
  final two_rooms_created
    [Connect "s2"; Emit "s2" (Login (Some "bob")); Emit "s2" (JoinRoom "room-1-aaaaa")].

(** Alice has created "general", Bob has joined it and said "hi alice". *)
Definition conversation : ServerState :=
  final general_created
    [Emit "s2" (JoinRoom "room-1-aaaaa");
     Emit "s2" (SendMessage (Some "room-1-aaaaa") (Some " hi alice ") 7 "ccccc" 8)].

(** The scenario of the specification: Alice creates "general", Bob asks
    for "General", joins the room he is given, and Alice writes to it. *)
Definition scenario : list Action :=
  [Connect "s1"; Emit "s1" (Login (Some "alice"));
   Emit "s1" (CreateRoom (Some "general") 1 "aaaaa");
   Connect "s2"; Emit "s2" (Login (Some "bob"));
   Emit "s2" (CreateRoom (Some "General") 2 "bbbbb");
   Emit "s2" (JoinRoom "room-1-aaaaa");
   Emit "s1" (SendMessage (Some "room-1-aaaaa") (Some "hi bob") 3 "ccccc" 4)].

(** The conversation goes on: Alice answers, opens a second room, Bob
    sends a blank text and then says bye. *)
Definition conversation_goes_on : list Action :=
  [Emit "s1" (SendMessage (Some "room-1-aaaaa") (Some "hi bob") 9 "ddddd" 10);
   Emit "s1" (CreateRoom (Some "random") 11 "eeeee");
   Emit "s2" (SendMessage (Some "room-1-aaaaa") (Some "   ") 12 "fffff" 13);
   Emit "s2" (SendMessage (Some "room-1-aaaaa") (Some "bye") 14 "ggggg" 15)].

(** Membership in a set that is given by closed terms. *)
Ltac compute_elem_of :=
  unfold subscribed; apply (bool_decide_unpack _); vm_compute; exact I.

(** ** Strings and property reads *)

Lemma blank_required (x : option string) :
  JS.falsy x || JS.falsy (JS.trim <$> x) = true ↔ blank x.
Proof.
  unfold blank, str. destruct x as [x|]; simpl; [|done].
  rewrite orb_true_iff, !bool_decide_eq_true. split; [|by right].
  intros [->|H]; done.
Qed.

Lemma not_blank_required (x : option string) :
  JS.falsy x || JS.falsy (JS.trim <$> x) = false ↔ ¬ blank x.
Proof. rewrite <- blank_required. by destruct (_ || _). Qed.

Lemma not_blank_is_Some (x : option string) : ¬ blank x → x = Some (str x).
Proof. destruct x; [done|]. intros H. by destruct H. Qed.

Lemma falsy_spec (x : option string) : JS.falsy x = true ↔ x = None ∨ x = Some "".
Proof.
  destruct x as [x|]; simpl; [|by intuition].
  rewrite bool_decide_eq_true. split; [intros ->; by right|].
  by intros [|[=]].
Qed.

(** A generated room id is not a name of [Object.prototype]: the
    assignment [serverMessagesByRoom[newRoom.id] = []] makes an own
    property. *)
Lemma fresh_room_id_not_inherited (now : N) (rnd : string) :
  JS.is_prototype_name (fresh_room_id now rnd) = false.
Proof.
  apply bool_decide_eq_false. unfold JS.prototype_names, fresh_room_id.
  rewrite !elem_of_cons, elem_of_nil. simpl. intros H.
  repeat (destruct H as [H|H]; [discriminate H|]). done.
Qed.

Lemma get_own {A} (o : gmap string A) (k : string) (a : A) :
  JS.get o k = JS.Own a ↔ o !! k = Some a.
Proof.
  unfold JS.get. destruct (o !! k); [|by destruct (JS.is_prototype_name k)].
  split; congruence.
Qed.

Lemma get_insert_eq {A} (o : gmap string A) (k : string) (a : A) :
  JS.get (<[k := a]> o) k = JS.Own a.
Proof. apply get_own, lookup_insert_eq. Qed.

Lemma get_undefined {A} (o : gmap string A) (k : string) :
  JS.get o k = JS.Undefined ↔ o !! k = None ∧ JS.is_prototype_name k = false.
Proof.
  unfold JS.get. destruct (o !! k); [by intuition|].
  destruct (JS.is_prototype_name k); by intuition.
Qed.

(** ** Finding rooms *)

Lemma find_head_filter (p : Room → bool) (l : list Room) :
  find p l = head (List.filter p l).
Proof. induction l as [|r l IH]; simpl; [done|]. by destruct (p r). Qed.

Lemma find_has_id_Some (roomId : string) (l : list Room) (r : Room) :
  find (has_id roomId) l = Some r → r ∈ l ∧ room_id r = roomId.
Proof.
  intros H. apply find_some in H as [H1 H2].
  split; [by apply list_elem_of_In|]. by apply bool_decide_eq_true in H2.
Qed.

Lemma find_has_id_None (roomId : string) (l : list Room) :
  find (has_id roomId) l = None ↔ ¬ ∃ r, r ∈ l ∧ room_id r = roomId.
Proof.
  split.
  - intros H [r [Hr Hid]]. apply list_elem_of_In in Hr.
    pose proof (find_none _ _ H r Hr) as Hn.
    apply bool_decide_eq_false in Hn. done.
  - intros H. destruct (find (has_id roomId) l) as [r|] eqn:E; [|done].
    destruct H. exists r. by apply find_has_id_Some.
Qed.

(** ** login *)

Lemma login_blank (s : ServerState) (sid : string) (username : option string) :
  blank username →
  login s sid username = answer s (LoginReply None None (Some err_username_required)).
Proof. intros H. unfold login. apply blank_required in H. by rewrite H. Qed.

Lemma login_named (s : ServerState) (sid : string) (username : option string) :
  ¬ blank username →
  login s sid username =
    let user := mkUser sid (JS.trim (str username)) in
    answer (set_users <[sid := user]> s)
      (LoginReply (Some user) (Some (serverRooms s)) None).
Proof. intros H. unfold login. apply not_blank_required in H. by rewrite H. Qed.

(** C8. [login] trims the name it is given.  When the trimmed name is
    empty (or no name is given) it answers "Username is required.", an
    InvalidInput error, and leaves the state as it was.  Otherwise it binds
    the socket id to the identity [{id: socket.id, name: trimmed name}],
    whatever was bound to that id before and whatever names other
    connections hold, changes nothing else, and answers with that identity
    and the room directory; a second login on the same connection replaces
    the binding of the first. *)
Theorem login_binds_trimmed_identity
  (s : ServerState) (sid : string) (username : option string) :
  let name := JS.trim (str username) in
  let identity := {| user_id := sid; user_name := name |} in
  let s' := (login s sid username).1 in
  let out := (login s sid username).2 in
  (name = "" →
     s' = s ∧ fails_with InvalidInput (reply out) ∧
     reply out = LoginReply None None (Some err_username_required)) ∧
  (name ≠ "" →
     serverUsers s' = <[sid := identity]> (serverUsers s) ∧
     serverUsers s' !! sid = Some identity ∧
     serverRooms s' = serverRooms s ∧
     serverMessagesByRoom s' = serverMessagesByRoom s ∧
     sockets s' = sockets s ∧
     out = mkOutput (LoginReply (Some identity) (Some (serverRooms s)) None) [] ∧
     ∀ username2, ¬ blank username2 →
       serverUsers (login s' sid username2).1 =
         <[sid := mkUser sid (JS.trim (str username2))]> (serverUsers s)).
Proof.
  intros name identity s' out. split; intros Hname.
  - subst s' out. rewrite login_blank by done. simpl.
    split_and!; [done| |done]. by exists err_username_required.
  - subst s' out. rewrite login_named by done. simpl.
    split_and!; try done.
    + apply lookup_insert_eq.
    + intros username2 H2. rewrite login_named by done. simpl.
      apply insert_insert_eq.
Qed.

Lemma login_binds_trimmed_identity_witness :
  serverUsers (login initial "s1" (Some "  alice ")).1 !! "s1"
    = Some (mkUser "s1" "alice") ∧
  fails_with InvalidInput (reply (login initial "s1" (Some "   ")).2).
Proof.
  split.
  - apply (login_binds_trimmed_identity initial "s1" (Some "  alice ")).
    vm_compute. discriminate.
  - apply (login_binds_trimmed_identity initial "s1" (Some "   ")).
    reflexivity.
Defined.

(** ** sendMessage *)

Lemma send_guard (roomId text : option string) :
  JS.falsy roomId || JS.falsy text || JS.falsy (JS.trim <$> text) = true
  ↔ roomId = None ∨ roomId = Some "" ∨ blank text.
Proof.
  rewrite <- orb_assoc, orb_true_iff, blank_required, falsy_spec. tauto.
Qed.

Lemma set_messages_id (s : ServerState) :
  set_messages (λ _, serverMessagesByRoom s) s = s.
Proof. by destruct s. Qed.

Lemma sendMessage_outcome (s : ServerState) (sid : string) (sender : User)
  (roomId text : option string) (now : N) (rnd : string) (now' : N) :
  serverUsers s !! sid = Some sender →
  SendOutcome s sender roomId text now rnd now'
    (sendMessage s sid roomId text now rnd now').
Proof.
  intros Hsender. unfold sendMessage. rewrite Hsender.
  destruct (JS.falsy roomId || JS.falsy text || JS.falsy (JS.trim <$> text)) eqn:G.
  { apply send_invalid. by apply send_guard. }
  assert (¬ (roomId = None ∨ roomId = Some "" ∨ blank text)) as G'.
  { rewrite <- send_guard, G. done. }
  destruct roomId as [R|]; [|tauto]. simpl.
  assert (R ≠ "") by (intros ->; tauto).
  assert (¬ blank text) by tauto.
  unfold ensure_log, JS.get.
  destruct (serverMessagesByRoom s !! R) as [log|] eqn:Hlog.
  - rewrite set_messages_id, Hlog.
    replace (set_messages _ s) with (set_messages <[R := (log ++ [mkMessage
      (fresh_msg_id now rnd) R sender (JS.trim (str text)) now'])%list]> s)
      by by destruct s.
    eapply send_appended; eauto.
  - destruct (JS.is_prototype_name R) eqn:Hproto.
    + rewrite set_messages_id, Hlog.
      eapply send_throws; eauto.
    + destruct (find (has_id R) (serverRooms s)) eqn:Hfind.
      * rewrite lookup_insert_eq.
        replace (set_messages _ (set_messages _ s)) with
          (set_messages <[R := ([] ++ [mkMessage (fresh_msg_id now rnd) R sender
             (JS.trim (str text)) now'])%list]> s).
        2:{ destruct s; unfold set_messages; simpl. f_equal.
            by rewrite insert_insert_eq. }
        eapply send_appended; eauto; right; rewrite ?Hfind; eauto.
      * eapply send_not_found; eauto.
Qed.

Lemma sendMessage_unauthenticated (s : ServerState) (sid : string)
  (roomId text : option string) (now : N) (rnd : string) (now' : N) :
  serverUsers s !! sid = None →
  sendMessage s sid roomId text now rnd now'
    = answer s (SendMessageReply None None (Some err_send_not_authenticated)).
Proof. intros H. unfold sendMessage. by rewrite H. Qed.

Lemma fails_with_error (k : ErrorKind) (r : Reply) (e : string) :
  reply_error r = Some e → fails_with k r ↔ error_kind e = Some k.
Proof.
  intros H. unfold fails_with. rewrite H. split.
  - by intros [e' [[= ->] ?]].
  - intros. by exists e.
Qed.

Lemma fails_with_no_error (k : ErrorKind) (r : Reply) :
  reply_error r = None → ¬ fails_with k r.
Proof. intros H [e [He _]]. congruence. Qed.

Lemma final_reachable (s : ServerState) (acts : list Action) :
  reachable s → reachable (final s acts).
Proof.
  revert s. induction acts as [|a acts IH]; intros s Hs; [done|].
  apply IH. by constructor.
Qed.

Lemma alice_online_reachable : reachable alice_online.
Proof. apply final_reachable. constructor. Qed.

Lemma alice_online_user :
  serverUsers alice_online !! "s1" = Some (mkUser "s1" "alice").
Proof. reflexivity. Qed.

Lemma sendMessage_invalid
  (s : ServerState) (sid : string) (sender : User) (roomId text : option string)
  (now : N) (rnd : string) (now' : N) :
  serverUsers s !! sid = Some sender →
  roomId = None ∨ roomId = Some "" ∨ blank text →
  sendMessage s sid roomId text now rnd now'
    = answer s (SendMessageReply None None (Some err_id_and_text_required)).
Proof.
  intros Hsender H. apply send_guard in H. unfold sendMessage.
  by rewrite Hsender, H.
Qed.

(** C5 (as amended). For a logged-in sender, [sendMessage] answers with
    the InvalidInput error "Room ID and text are required." exactly when
    the room id is missing or the empty string, or the text is missing or
    trims to empty; then the state, and with it every log, is unchanged and
    nothing is emitted. *)
Theorem sendMessage_invalid_input_iff
  (s : ServerState) (sid : string) (sender : User) (roomId text : option string)
  (now : N) (rnd : string) (now' : N) :
  serverUsers s !! sid = Some sender →
  let r := sendMessage s sid roomId text now rnd now' in
  (fails_with InvalidInput (reply r.2)
   ↔ roomId = None ∨ roomId = Some "" ∨ blank text) ∧
  (fails_with InvalidInput (reply r.2) →
   r.1 = s ∧ r.2 = mkOutput (SendMessageReply None None (Some err_id_and_text_required)) []).
Proof.
  intros Hsender r. subst r.
  destruct (sendMessage_outcome s sid sender roomId text now rnd now' Hsender)
    as [Hinv|R -> HR Ht _ _ _|R -> HR Ht _ _|R log -> HR Ht _ message]; simpl.
  - split; [|done]. split; [done|]. intros _. by exists err_id_and_text_required.
  - assert (¬ fails_with InvalidInput
              (SendMessageReply None None (Some err_room_does_not_exist))) as Hn.
    { rewrite fails_with_error by done. done. }
    split; [|done]. split; [done|]. intros [|[[=]|]]; done.
  - assert (¬ fails_with InvalidInput (Throws exn_push_not_a_function)) as Hn
      by by apply fails_with_no_error.
    split; [|done]. split; [done|]. intros [|[[=]|]]; done.
  - assert (¬ fails_with InvalidInput
              (SendMessageReply (Some true) (Some message) None)) as Hn
      by by apply fails_with_no_error.
    split; [|done]. split; [done|]. intros [|[[=]|]]; done.
Qed.

Lemma sendMessage_invalid_input_iff_witness :
  serverUsers alice_online !! "s1" = Some (mkUser "s1" "alice") ∧
  (sendMessage alice_online "s1" (Some "room-1-aaaaa") (Some "   ") 2 "bbbbb" 3).1
    = alice_online.
Proof.
  split; [reflexivity|].
  pose proof (sendMessage_invalid_input_iff alice_online "s1" (mkUser "s1" "alice")
    (Some "room-1-aaaaa") (Some "   ") 2 "bbbbb" 3 eq_refl) as [Hiff Hsame].
  apply Hsame, Hiff. right. right. reflexivity.
Defined.

(** C5 as stated fails: a room id of white space only is not rejected as
    InvalidInput.  The guard is [!roomId], which a non-empty string of
    blanks passes; the request goes on to the room lookup, which answers
    "Room does not exist.". *)
Lemma sendMessage_blank_roomId_not_invalid_input :
  ¬ (∀ (s : ServerState) (sid : string) (sender : User) (roomId text : option string)
       (now : N) (rnd : string) (now' : N),
       serverUsers s !! sid = Some sender →
       (fails_with InvalidInput (reply (sendMessage s sid roomId text now rnd now').2)
        ↔ blank text ∨ blank roomId)).
Proof.
  intros H.
  specialize (H alice_online "s1" (mkUser "s1" "alice") (Some "  ") (Some "hi")
                2%N "bbbbb" 3%N eq_refl).
  assert (fails_with InvalidInput
            (reply (sendMessage alice_online "s1" (Some "  ") (Some "hi") 2 "bbbbb" 3).2))
    as [e [He Hk]] by (apply H; right; reflexivity).
  vm_compute in He. injection He as <-. vm_compute in Hk. discriminate Hk.
Qed.

Lemma sendMessage_blank_roomId_not_found :
  blank (Some "  ") ∧
  fails_with NotFound
    (reply (sendMessage alice_online "s1" (Some "  ") (Some "hi") 2 "bbbbb" 3).2).
Proof. split; [reflexivity|]. by exists err_room_does_not_exist. Qed.

Lemma sendMessage_not_found_iff
  (s : ServerState) (sid : string) (sender : User) (R : string) (text : option string)
  (now : N) (rnd : string) (now' : N) :
  serverUsers s !! sid = Some sender → logs_well_keyed s →
  R ≠ "" → ¬ blank text → JS.is_prototype_name R = false →
  fails_with NotFound (reply (sendMessage s sid (Some R) text now rnd now').2)
  ↔ ¬ ∃ r, r ∈ serverRooms s ∧ room_id r = R.
Proof.
  intros Hsender Hkeyed HR Ht Hproto.
  destruct (sendMessage_outcome s sid sender (Some R) text now rnd now' Hsender)
    as [Hinv|R' [= <-] _ _ Hlog _ Hfind|R' [= <-] _ _ _ Hp|R' log [= <-] _ _ Hlog message];
    simpl.
  - destruct Hinv as [|[[=]|]]; congruence.
  - apply find_has_id_None in Hfind. split; [done|]. intros _.
    by exists err_room_does_not_exist.
  - congruence.
  - split.
    + intros Hf. by apply fails_with_no_error in Hf.
    + intros Hno. destruct Hno. destruct Hlog as [Hlog|(_ & _ & _ & [r Hr])].
      * by apply Hkeyed in Hlog as [? _].
      * exists r. by apply find_has_id_Some.
Qed.

Lemma sendMessage_creates_missing_log
  (s : ServerState) (sid : string) (sender : User) (R : string) (text : option string)
  (now : N) (rnd : string) (now' : N) :
  serverUsers s !! sid = Some sender →
  R ≠ "" → ¬ blank text → JS.is_prototype_name R = false →
  serverMessagesByRoom s !! R = None →
  (∃ r, r ∈ serverRooms s ∧ room_id r = R) →
  let message := mkMessage (fresh_msg_id now rnd) R sender (JS.trim (str text)) now' in
  sendMessage s sid (Some R) text now rnd now'
  = (set_messages <[R := [message]]> s,
     mkOutput (SendMessageReply (Some true) (Some message) None)
       [mkEmission (io_to R (sockets s)) (newMessage message)]).
Proof.
  intros Hsender HR Ht Hproto Hnone Hroom message.
  destruct (sendMessage_outcome s sid sender (Some R) text now rnd now' Hsender)
    as [Hinv|R' [= <-] _ _ _ _ Hfind|R' [= <-] _ _ _ Hp|R' log [= <-] _ _ Hlog message'].
  - destruct Hinv as [|[[=]|]]; congruence.
  - by apply find_has_id_None in Hfind.
  - congruence.
  - destruct Hlog as [Hlog|(-> & _)]; [congruence|done].
Qed.

(** C6. Failing input: the room id "constructor".  [serverMessagesByRoom]
    is an object literal, so the guard [!serverMessagesByRoom[roomId]]
    reads the member inherited from [Object.prototype], which is truthy:
    the directory is never consulted, no "Room does not exist." is
    answered although no room has that id, and the handler ends in the
    TypeError of [push] on a value that is not an array. *)
Theorem sendMessage_inherited_name_not_rejected :
  reachable alice_online ∧
  serverUsers alice_online !! "s1" = Some (mkUser "s1" "alice") ∧
  (¬ ∃ r, r ∈ serverRooms alice_online ∧ room_id r = "constructor") ∧
  sendMessage alice_online "s1" (Some "constructor") (Some "hi") 2 "bbbbb" 3
    = answer alice_online (Throws exn_push_not_a_function) ∧
  ¬ fails_with NotFound
      (reply (sendMessage alice_online "s1" (Some "constructor") (Some "hi") 2 "bbbbb" 3).2).
Proof.
  split_and!.
  - apply alice_online_reachable.
  - reflexivity.
  - intros [r [Hr _]]. vm_compute in Hr. by apply elem_of_nil in Hr.
  - reflexivity.
  - by apply fails_with_no_error.
Qed.

(** ** getMessagesForRoom *)

Lemma getMessagesForRoom_spec (s : ServerState) (sid roomId : string) :
  let r := getMessagesForRoom s sid roomId in
  r.1 = s ∧ emitted r.2 = [] ∧ reply_error (reply r.2) = None ∧
  (serverUsers s !! sid = None → reply r.2 = GetMessagesReply (Messages [])) ∧
  (∀ log, is_Some (serverUsers s !! sid) →
     serverMessagesByRoom s !! roomId = Some log →
     reply r.2 = GetMessagesReply (Messages log)) ∧
  (is_Some (serverUsers s !! sid) →
     serverMessagesByRoom s !! roomId = None → JS.is_prototype_name roomId = false →
     reply r.2 = GetMessagesReply (Messages [])).
Proof.
  unfold getMessagesForRoom, JS.get.
  destruct (serverUsers s !! sid) as [u|]; simpl.
  - split_and!; try done.
    + by intros log _ ->.
    + by intros _ -> ->.
  - split_and!; try done; by intros ? [? [=]].
Qed.

(** C10. Failing input: the room id "constructor" from a logged-in
    connection.  No log is filed under that name, yet the callback does not
    receive the empty list: [serverMessagesByRoom[roomId] || []] yields the
    member inherited from [Object.prototype]. *)
Theorem getMessagesForRoom_inherited_name :
  reachable alice_online ∧
  serverUsers alice_online !! "s1" = Some (mkUser "s1" "alice") ∧
  serverMessagesByRoom alice_online !! "constructor" = None ∧
  reply (getMessagesForRoom alice_online "s1" "constructor").2
    = GetMessagesReply (NotAnArray "constructor") ∧
  reply (getMessagesForRoom alice_online "s1" "constructor").2
    ≠ GetMessagesReply (Messages []).
Proof.
  split_and!; try reflexivity; [apply alice_online_reachable|discriminate].
Qed.

(** ** createRoom and joinRoom *)

Lemma createRoom_outcome (s : ServerState) (sid : string) (roomName : option string)
  (now : N) (rnd : string) :
  CreateOutcome s sid roomName now rnd (createRoom s sid roomName now rnd).
Proof.
  unfold createRoom.
  destruct (serverUsers s !! sid) as [creatingUser|] eqn:Huser;
    [|by apply create_unauthenticated].
  destruct (JS.falsy roomName || JS.falsy (JS.trim <$> roomName)) eqn:G.
  { eapply create_invalid; [done|]. by apply blank_required. }
  apply not_blank_required in G.
  destruct (find _ (serverRooms s)) as [existingRoom|] eqn:Hfind.
  - by eapply create_existing.
  - by eapply (create_new s sid roomName now rnd creatingUser).
Qed.

Lemma joinRoom_outcome (s : ServerState) (sid roomId : string) :
  JoinOutcome s sid roomId (joinRoom s sid roomId).
Proof.
  unfold joinRoom.
  destruct (serverUsers s !! sid) as [user|] eqn:Huser;
    [|by apply join_unauthenticated].
  destruct (find _ (serverRooms s)) as [room|] eqn:Hfind.
  - by eapply join_joined.
  - by eapply join_not_found.
Qed.

(** ** Failed actions *)

Lemma sendMessage_blank_text (s : ServerState) (sid : string)
  (roomId text : option string) (now : N) (rnd : string) (now' : N) :
  blank text →
  (sendMessage s sid roomId text now rnd now').1 = s ∧
  is_Some (reply_error (reply (sendMessage s sid roomId text now rnd now').2)) ∧
  (is_Some (serverUsers s !! sid) →
   fails_with InvalidInput (reply (sendMessage s sid roomId text now rnd now').2)).
Proof.
  intros Hblank. destruct (serverUsers s !! sid) as [sender|] eqn:Hsender.
  - rewrite (sendMessage_invalid s sid sender) by tauto. simpl.
    split_and!; [done|eauto|]. intros _. by exists err_id_and_text_required.
  - rewrite sendMessage_unauthenticated by done. simpl.
    split_and!; [done|eauto|]. by intros [? [=]].
Qed.

(** C4 (as amended). When the reply of login, createRoom, joinRoom or
    sendMessage carries an error, the identity bindings, the room directory
    and every message log are as before the call.  The table of groups is
    as before too, except for createRoom's "Room already exists. Joining
    existing room.", which carries the existing room and puts the caller
    into that room's group.  sendMessage with a text of white space only
    answers with an error and changes nothing. *)
Theorem failed_action_keeps_stores (s : ServerState) (sid : string) :
  (∀ (req : Request) (e : string),
     reply_error (reply (handle s sid req).2) = Some e →
     let s' := (handle s sid req).1 in
     serverUsers s' = serverUsers s ∧
     serverRooms s' = serverRooms s ∧
     serverMessagesByRoom s' = serverMessagesByRoom s ∧
     (e ≠ err_room_exists → s' = s) ∧
     (e = err_room_exists →
      ∃ room, room ∈ serverRooms s ∧
        reply (handle s sid req).2 = CreateRoomReply (Some room) (Some false) (Some e) ∧
        sockets s' = socket_join sid (room_id room) (sockets s))) ∧
  (∀ (roomId text : option string) (now : N) (rnd : string) (now' : N),
     blank text →
     (sendMessage s sid roomId text now rnd now').1 = s ∧
     is_Some (reply_error (reply (sendMessage s sid roomId text now rnd now').2)) ∧
     (is_Some (serverUsers s !! sid) →
      fails_with InvalidInput (reply (sendMessage s sid roomId text now rnd now').2))).
Proof.
  split; [|apply sendMessage_blank_text].
  intros req e. destruct req as [username|roomName now rnd|roomId|roomId text now rnd now'
                                 |roomId|]; simpl.
  - unfold login.
    destruct (JS.falsy username || JS.falsy (JS.trim <$> username)); simpl; [|done].
    intros [= <-]. by split_and!.
  - destruct (createRoom_outcome s sid roomName now rnd)
      as [?|? ? ?|creatingUser existingRoom ? ? Hfind|? ? ? ?]; simpl.
    + intros [= <-]. by split_and!.
    + intros [= <-]. by split_and!.
    + intros [= <-]. split_and!; try done.
      intros _. exists existingRoom. split_and!; try done.
      apply find_some in Hfind as [Hin _]. by apply list_elem_of_In.
    + done.
  - destruct (joinRoom_outcome s sid roomId) as [?|? ? ?|? ? ? ?]; simpl.
    + intros [= <-]. by split_and!.
    + intros [= <-]. by split_and!.
    + done.
  - destruct (serverUsers s !! sid) as [sender|] eqn:Hsender.
    + destruct (sendMessage_outcome s sid sender roomId text now rnd now' Hsender);
        simpl; try done; intros [= <-]; by split_and!.
    + rewrite sendMessage_unauthenticated by done. simpl.
      intros [= <-]. by split_and!.
  - unfold getMessagesForRoom. by destruct (serverUsers s !! sid).
  - done.
Qed.

Lemma failed_action_keeps_stores_witness :
  serverMessagesByRoom
    (handle general_created "s2" (SendMessage (Some "room-1-aaaaa") (Some "  ") 5 "ccccc" 6)).1
  = serverMessagesByRoom general_created.
Proof.
  apply (proj1 (failed_action_keeps_stores general_created "s2")
           (SendMessage (Some "room-1-aaaaa") (Some "  ") 5 "ccccc" 6)
           err_id_and_text_required).
  reflexivity.
Defined.

(** C4 as stated fails: createRoom for a name that is taken answers with
    an error and the existing room, and has put the caller into the group
    of that room. *)
Lemma createRoom_existing_error_changes_groups :
  ¬ (∀ (s : ServerState) (sid : string) (req : Request) (e : string),
       reply_error (reply (handle s sid req).2) = Some e →
       (handle s sid req).1 = s).
Proof.
  intros H.
  specialize (H general_created "s2" (CreateRoom (Some "General") 5%N "ccccc")
                err_room_exists eq_refl).
  apply (f_equal (λ s, bool_decide ("room-1-aaaaa" ∈ rooms_of (sockets s) "s2"))) in H.
  vm_compute in H. discriminate H.
Qed.

(** ** Groups *)

Lemma elem_of_rooms_of (t : gmap string (gset string)) (sid room : string) :
  room ∈ rooms_of t sid ↔ ∃ rs, t !! sid = Some rs ∧ room ∈ rs.
Proof.
  unfold rooms_of. destruct (t !! sid) as [rs|]; simpl.
  - split; [by exists rs|]. by intros [? [[= <-] ?]].
  - split; [set_solver|]. by intros [? [[=] _]].
Qed.

Lemma elem_of_io_to (t : gmap string (gset string)) (room sid : string) :
  sid ∈ io_to room t ↔ room ∈ rooms_of t sid.
Proof.
  unfold io_to. rewrite elem_of_dom, elem_of_rooms_of. unfold is_Some.
  setoid_rewrite map_lookup_filter_Some. simpl. done.
Qed.

Lemma elem_of_rooms_of_join (t : gmap string (gset string)) (sid room sid' room' : string) :
  room' ∈ rooms_of (socket_join sid room t) sid'
  ↔ room' ∈ rooms_of t sid' ∨ (sid' = sid ∧ room' = room ∧ is_Some (t !! sid)).
Proof.
  unfold socket_join, rooms_of.
  destruct (decide (sid = sid')) as [<-|Hne].
  - rewrite lookup_alter_eq. destruct (t !! sid) as [rs|]; simpl.
    + rewrite elem_of_union, elem_of_singleton. split.
      * intros [?|?]; [by left|right; eauto].
      * intros [?|(_ & ? & _)]; [by left|by right].
    + split; [set_solver|]. intros [?|(_ & _ & [? [=]])]. done.
  - rewrite lookup_alter_ne by done. split; [by left|].
    intros [?|[? _]]; [done|congruence].
Qed.

Lemma elem_of_rooms_of_leave (t : gmap string (gset string)) (sid room sid' room' : string) :
  room' ∈ rooms_of (socket_leave sid room t) sid'
  ↔ room' ∈ rooms_of t sid' ∧ ¬ (sid' = sid ∧ room' = room).
Proof.
  unfold socket_leave, rooms_of.
  destruct (decide (sid = sid')) as [<-|Hne].
  - rewrite lookup_alter_eq. destruct (t !! sid) as [rs|]; simpl.
    + rewrite elem_of_difference, elem_of_singleton. tauto.
    + split; [by intros ?%not_elem_of_empty|by intros [?%not_elem_of_empty _]].
  - rewrite lookup_alter_ne by done. split; [|by intros [? _]].
    intros ?. split; [done|]. intros [? _]. congruence.
Qed.

Lemma elem_of_rooms_of_leave_previous
  (t : gmap string (gset string)) (sid roomId sid' room : string) :
  room ∈ rooms_of (leave_previous sid roomId t) sid'
  ↔ room ∈ rooms_of t sid' ∧ (sid' = sid → room = sid ∨ room = roomId).
Proof.
  unfold leave_previous.
  cut (∀ X : gset string,
         room ∈ rooms_of
           (set_fold (λ roomIn t, if bool_decide (roomIn ≠ sid ∧ roomIn ≠ roomId)
                                  then socket_leave sid roomIn t else t) t X) sid'
         ↔ room ∈ rooms_of t sid'
           ∧ (sid' = sid → room ∈ X → room = sid ∨ room = roomId)).
  { intros Hcut. rewrite Hcut. split; intros [Hin Hkeep]; (split; [done|]).
    - intros ->. by apply Hkeep.
    - intros -> _. by apply Hkeep. }
  apply (set_fold_ind_L
           (λ acc X, room ∈ rooms_of acc sid'
                     ↔ room ∈ rooms_of t sid'
                       ∧ (sid' = sid → room ∈ X → room = sid ∨ room = roomId))).
  - split; [|by intros [? _]]. intros ?. split; [done|].
    by intros _ ?%not_elem_of_empty.
  - intros x X acc Hx IH. rewrite elem_of_union, elem_of_singleton.
    case_bool_decide as Hleave.
    + rewrite elem_of_rooms_of_leave, IH. split.
      * intros [[Hin Hkeep] Hnot]. split; [done|].
        intros -> [->|?]; [|by apply Hkeep]. by destruct Hnot.
      * intros [Hin Hkeep]. split; [split; [done|]; intros; apply Hkeep; auto|].
        intros [-> ->]. destruct Hleave as [? ?].
        destruct (Hkeep eq_refl) as [?|?]; [by left|done|done].
    + rewrite IH. split; intros [Hin Hkeep]; (split; [done|]).
      * intros -> [->|?]; [|by apply Hkeep].
        destruct (decide (x = sid)); [by left|].
        destruct (decide (x = roomId)); [by right|]. by destruct Hleave.
      * intros; apply Hkeep; auto.
Qed.

(** After a successful [joinRoom] the caller is in its own group and in
    the group of the target room, and in no other. *)
Lemma joinRoom_leaves_previous (s : ServerState) (sid roomId : string) (b : Backlog) :
  reply (joinRoom s sid roomId).2 = JoinRoomReply (Some b) None →
  ∀ g, subscribed (joinRoom s sid roomId).1 sid g → g = sid ∨ g = roomId.
Proof.
  destruct (joinRoom_outcome s sid roomId) as [?|? ? ?|? ? ? ?]; simpl; try done.
  intros _ g. unfold subscribed. simpl.
  rewrite elem_of_rooms_of_join, elem_of_rooms_of_leave_previous.
  intros [[_ Hkept]|(_ & -> & _)]; [by apply Hkept|by right].
Qed.

(** Whoever is subscribed to the room of a message gets the message, and
    nobody else does. *)
Lemma sendMessage_recipients
  (s : ServerState) (sid : string) (R : string) (text : option string)
  (now : N) (rnd : string) (now' : N) (m : Message) :
  reply (sendMessage s sid (Some R) text now rnd now').2
    = SendMessageReply (Some true) (Some m) None →
  ∃ e, emitted (sendMessage s sid (Some R) text now rnd now').2 = [e] ∧
       event e = newMessage m ∧
       ∀ c, c ∈ recipients e ↔ subscribed s c R.
Proof.
  destruct (serverUsers s !! sid) as [sender|] eqn:Hsender.
  - destruct (sendMessage_outcome s sid sender (Some R) text now rnd now' Hsender)
      as [?|? ? ? ? ? ? ?|? ? ? ? ? ?|R' log [= <-] ? ? ? message]; simpl; try done.
    intros [= <-]. eexists. split_and!; [done|done|].
    intros c. simpl. apply elem_of_io_to.
  - by rewrite sendMessage_unauthenticated.
Qed.

(** ** Single membership *)

(** C1. Failing input: one connection logs in and calls createRoom
    twice, with two new names.  [createRoom] calls [socket.join] for the
    room it made without leaving the groups the socket is in (the
    [socket.rooms.forEach] that [joinRoom] runs first), so the connection
    is then subscribed to the groups of both rooms. *)
Theorem createRoom_breaks_single_membership :
  reachable two_rooms_created ∧
  reply (createRoom
           (final initial [Connect "s1"; Emit "s1" (Login (Some "alice"));
                           Emit "s1" (CreateRoom (Some "general") 1 "aaaaa")])
           "s1" (Some "random") 2 "bbbbb").2
    = CreateRoomReply (Some (mkRoom "room-2-bbbbb" "random" (mkUser "s1" "alice")))
        (Some true) None ∧
  subscribed two_rooms_created "s1" "room-1-aaaaa" ∧
  subscribed two_rooms_created "s1" "room-2-bbbbb" ∧
  ¬ single_membership two_rooms_created.
Proof.
  assert (subscribed two_rooms_created "s1" "room-1-aaaaa") as H1
    by compute_elem_of.
  assert (subscribed two_rooms_created "s1" "room-2-bbbbb") as H2
    by compute_elem_of.
  split_and!; try done.
  - apply final_reachable. constructor.
  - intros H.
    assert ("room-1-aaaaa" = "room-2-bbbbb") as E
      by (apply (H "s1" _ _ H1 H2); discriminate).
    discriminate E.
Qed.

(** ** Delivery *)

(** C3. Failing input: Alice creates "general" and then "random" on one
    connection; Bob joins "general" and sends "hi" there.  Alice's
    connection, subscribed to the different room "random", is among the
    recipients of the [newMessage] event, because [createRoom] left it in
    the group of "general" as well. *)
Theorem sendMessage_reaches_other_room :
  reachable bob_in_general ∧
  subscribed bob_in_general "s1" "room-2-bbbbb" ∧
  ∃ m e,
    sendMessage bob_in_general "s2" (Some "room-1-aaaaa") (Some "hi") 7 "ccccc" 8
      = (set_messages <["room-1-aaaaa" := [m]]> bob_in_general,
         mkOutput (SendMessageReply (Some true) (Some m) None) [e]) ∧
    event e = newMessage m ∧
    "s1" ∈ recipients e ∧
    ¬ delivered_to_room_only bob_in_general "room-1-aaaaa" e.
Proof.
  assert (subscribed bob_in_general "s1" "room-2-bbbbb") as H2
    by compute_elem_of.
  split_and!; [repeat apply final_reachable; constructor|done|].
  eexists _, _. split; [by vm_compute|].
  assert ("s1" ∈ io_to "room-1-aaaaa" (sockets bob_in_general)) as H1
    by compute_elem_of.
  split_and!; [done|done|].
  intros (_ & Hother & _).
  apply (Hother "s1" "room-2-bbbbb"); [done|discriminate|discriminate|done].
Qed.

(** ** Referential integrity *)

Lemma logs_well_keyed_same (s s' : ServerState) :
  serverRooms s' = serverRooms s →
  serverMessagesByRoom s' = serverMessagesByRoom s →
  logs_well_keyed s → logs_well_keyed s'.
Proof. unfold logs_well_keyed. intros -> ->. done. Qed.

Lemma logs_well_keyed_initial : logs_well_keyed initial.
Proof. intros k log H. simpl in H. by rewrite lookup_empty in H. Qed.

Lemma createRoom_logs_well_keyed (s : ServerState) (sid : string)
  (roomName : option string) (now : N) (rnd : string) :
  logs_well_keyed s → logs_well_keyed (createRoom s sid roomName now rnd).1.
Proof.
  intros Hs.
  destruct (createRoom_outcome s sid roomName now rnd)
    as [?|? ? ?|? ? ? ? ?|creatingUser ? ? ? newRoom]; simpl; try done.
  intros k log. simpl. destruct (decide (room_id newRoom = k)) as [<-|Hne].
  - rewrite lookup_insert_eq. intros [= <-]. split.
    + exists newRoom. split; [|done]. apply elem_of_app. right. by apply list_elem_of_singleton.
    + by intros m ?%elem_of_nil.
  - rewrite lookup_insert_ne by done. intros [[r [Hr Hid]] Hm]%Hs. split; [|done].
    exists r. split; [|done]. apply elem_of_app. by left.
Qed.

Lemma sendMessage_logs_well_keyed (s : ServerState) (sid : string)
  (roomId text : option string) (now : N) (rnd : string) (now' : N) :
  logs_well_keyed s → logs_well_keyed (sendMessage s sid roomId text now rnd now').1.
Proof.
  intros Hs. destruct (serverUsers s !! sid) as [sender|] eqn:Hsender.
  2:{ by rewrite sendMessage_unauthenticated. }
  destruct (sendMessage_outcome s sid sender roomId text now rnd now' Hsender)
    as [?|? ? ? ? ? ? ?|? ? ? ? ? ?|R log -> ? ? Hlog message]; simpl; try done.
  intros k log'. simpl. destruct (decide (R = k)) as [<-|Hne].
  - rewrite lookup_insert_eq. intros [= <-].
    destruct Hlog as [Hlog|(-> & _ & _ & [r Hr])].
    + apply Hs in Hlog as [Hroom Hm]. split; [done|].
      intros m [?|E%list_elem_of_singleton]%elem_of_app; [by apply Hm|by subst m].
    + apply find_has_id_Some in Hr. split; [by exists r|].
      intros m [?%elem_of_nil|E%list_elem_of_singleton]%elem_of_app; [done|by subst m].
  - rewrite lookup_insert_ne by done. apply Hs.
Qed.

Lemma next_logs_well_keyed (s : ServerState) (a : Action) :
  logs_well_keyed s → logs_well_keyed (next s a).
Proof.
  intros Hs. unfold next, step.
  destruct a as [sid|sid|sid req]; destruct (sockets s !! sid); simpl; try done.
  - unfold disconnect. simpl. by destruct (serverUsers s !! sid).
  - destruct req; simpl.
    + unfold login. by destruct (_ || _).
    + by apply createRoom_logs_well_keyed.
    + by destruct (joinRoom_outcome s sid roomId).
    + by apply sendMessage_logs_well_keyed.
    + unfold getMessagesForRoom. by destruct (serverUsers s !! sid).
    + done.
Qed.

Lemma reachable_logs_well_keyed (s : ServerState) : reachable s → logs_well_keyed s.
Proof.
  induction 1 as [|s a _ IH]; [apply logs_well_keyed_initial|].
  by apply next_logs_well_keyed.
Qed.

Lemma logs_well_keyed_integrity (s : ServerState) :
  logs_well_keyed s → referential_integrity s.
Proof.
  intros Hs k log m Hlog Hm. apply Hs in Hlog as [[r [Hr Hid]] Hk].
  exists r. split; [done|]. by rewrite (Hk m Hm).
Qed.

(** C9. In every reachable state, the [roomId] of every message of every
    log is the id of a room of the directory; the state after any further
    action (connection, login, createRoom, joinRoom, sendMessage, a read,
    disconnect) has the property again. *)
Theorem reachable_referential_integrity (s : ServerState) :
  reachable s →
  referential_integrity s ∧ ∀ a, referential_integrity (next s a).
Proof.
  intros Hs. split; [|intros a];
    apply logs_well_keyed_integrity, reachable_logs_well_keyed;
    [done|by constructor].
Qed.

Lemma reachable_referential_integrity_witness :
  reachable conversation ∧
  serverMessagesByRoom conversation !! "room-1-aaaaa"
    = Some [mkMessage "msg-7-ccccc" "room-1-aaaaa" (mkUser "s2" "bob") "hi alice" 8] ∧
  referential_integrity conversation.
Proof.
  assert (reachable conversation) as Hr
    by (repeat apply final_reachable; constructor).
  split_and!; [done|by vm_compute|].
  apply (reachable_referential_integrity conversation Hr).
Defined.

(** ** Round trip: sendMessage, then joinRoom *)

Lemma next_keeps_log (R : string) (s : ServerState) (a : Action) :
  keeps_log R a →
  serverMessagesByRoom (next s a) !! R = serverMessagesByRoom s !! R.
Proof.
  intros Hkeep. unfold next, step.
  destruct a as [sid|sid|sid req]; destruct (sockets s !! sid); simpl; try done.
  - unfold disconnect. simpl. by destruct (serverUsers s !! sid).
  - destruct req as [username|roomName now rnd|roomId|roomId text now rnd now'
                     |roomId|]; simpl in *.
    + unfold login. by destruct (_ || _).
    + destruct (createRoom_outcome s sid roomName now rnd); simpl; try done.
      by rewrite lookup_insert_ne.
    + by destruct (joinRoom_outcome s sid roomId).
    + destruct (serverUsers s !! sid) as [sender|] eqn:Hsender.
      2:{ by rewrite sendMessage_unauthenticated. }
      destruct (sendMessage_outcome s sid sender roomId text now rnd now' Hsender)
        as [?|? ? ? ? ? ? ?|? ? ? ? ? ?|R' log -> ? ? Hlog message]; simpl; try done.
      rewrite lookup_insert_ne; [done|congruence].
    + unfold getMessagesForRoom. by destruct (serverUsers s !! sid).
    + done.
Qed.

Lemma final_keeps_log (R : string) (acts : list Action) (s : ServerState) :
  Forall (keeps_log R) acts →
  serverMessagesByRoom (final s acts) !! R = serverMessagesByRoom s !! R.
Proof.
  intros H. revert s. induction H as [|a acts Ha _ IH]; intros s; [done|].
  simpl. rewrite IH. by apply next_keeps_log.
Qed.

Lemma sendMessage_appends
  (s : ServerState) (sid : string) (sender : User) (R : string) (text : option string)
  (now : N) (rnd : string) (now' : N) (m : Message) :
  serverUsers s !! sid = Some sender →
  reply (sendMessage s sid (Some R) text now rnd now').2
    = SendMessageReply (Some true) (Some m) None →
  m = mkMessage (fresh_msg_id now rnd) R sender (JS.trim (str text)) now' ∧
  ∃ log, serverMessagesByRoom (sendMessage s sid (Some R) text now rnd now').1 !! R
           = Some (log ++ [m])%list ∧
         (serverMessagesByRoom s !! R = Some log
          ∨ serverMessagesByRoom s !! R = None ∧ log = []).
Proof.
  intros Hsender.
  destruct (sendMessage_outcome s sid sender (Some R) text now rnd now' Hsender)
    as [?|? ? ? ? ? ? ?|? ? ? ? ? ?|R' log [= <-] ? ? Hlog message]; simpl; try done.
  intros [= <-]. split; [done|]. exists log. rewrite lookup_insert_eq.
  split; [done|]. destruct Hlog as [?|(-> & ? & _)]; [by left|by right].
Qed.

Lemma joinRoom_backlog (s : ServerState) (sid roomId : string) (b : Backlog) :
  reply (joinRoom s sid roomId).2 = JoinRoomReply (Some b) None →
  b = or_empty (JS.get (serverMessagesByRoom s) roomId).
Proof.
  destruct (joinRoom_outcome s sid roomId) as [?|? ? ?|? ? ? ?]; simpl; try done.
  by intros [= <-].
Qed.

(** C7. After a successful [sendMessage(R, t)] from a connection logged
    in under the name [n], and any further actions that do not touch the
    log of [R], a successful [joinRoom(R)] from any connection returns a
    backlog whose last message has the trimmed [t] as its text and [n] as
    the name of its sender. *)
Theorem sendMessage_joinRoom_round_trip
  (s : ServerState) (sidA : string) (sender : User) (R t : string)
  (now : N) (rnd : string) (now' : N) (m : Message)
  (acts : list Action) (sidB : string) (backlog : Backlog) :
  serverUsers s !! sidA = Some sender →
  reply (sendMessage s sidA (Some R) (Some t) now rnd now').2
    = SendMessageReply (Some true) (Some m) None →
  Forall (keeps_log R) acts →
  reply (joinRoom (final (sendMessage s sidA (Some R) (Some t) now rnd now').1 acts)
           sidB R).2
    = JoinRoomReply (Some backlog) None →
  ∃ ms last_message,
    backlog = Messages ms ∧ last ms = Some last_message ∧
    msg_text last_message = JS.trim t ∧
    user_name (msg_sender last_message) = user_name sender.
Proof.
  intros Hsender Hsent Hacts Hjoined.
  destruct (sendMessage_appends _ _ _ _ _ _ _ _ _ Hsender Hsent) as [Hm [log [Hlog _]]].
  apply joinRoom_backlog in Hjoined.
  unfold JS.get in Hjoined. rewrite final_keeps_log, Hlog in Hjoined by done.
  exists (log ++ [m])%list, m. rewrite last_snoc. by subst m.
Qed.

Lemma sendMessage_joinRoom_round_trip_witness :
  ∃ ms last_message,
    reply (joinRoom
             (final
                (sendMessage general_created "s1" (Some "room-1-aaaaa") (Some " hello ")
                   7 "ccccc" 8).1
                [Connect "s3"; Emit "s3" (Login (Some "carol"))])
             "s3" "room-1-aaaaa").2
      = JoinRoomReply (Some (Messages ms)) None ∧
    last ms = Some last_message ∧
    msg_text last_message = "hello" ∧
    user_name (msg_sender last_message) = "alice".
Proof.
  destruct (sendMessage_joinRoom_round_trip general_created "s1" (mkUser "s1" "alice")
              "room-1-aaaaa" " hello " 7 "ccccc" 8
              (mkMessage "msg-7-ccccc" "room-1-aaaaa" (mkUser "s1" "alice") "hello" 8)
              [Connect "s3"; Emit "s3" (Login (Some "carol"))] "s3"
              (Messages [mkMessage "msg-7-ccccc" "room-1-aaaaa" (mkUser "s1" "alice")
                           "hello" 8]))
    as (ms & last_message & Hb & Hlast & Htext & Hname).
  - reflexivity.
  - reflexivity.
  - repeat constructor.
  - reflexivity.
  - exists ms, last_message. injection Hb as <-. split_and!; [reflexivity|done..].
Defined.

(** ** Room names are unique up to letter case *)

Lemma same_name_named (trimmedRoomName : string) :
  same_name trimmedRoomName = named (JS.toLowerCase trimmedRoomName).
Proof. done. Qed.

Lemma step_creates_named (k : string) (s : ServerState) (a : Action) :
  k ≠ "" → creates_named k (s, a, (step s a).2) = true →
  match List.filter (named k) (serverRooms s) with
  | [] =>
      ∃ room, reply (step s a).2 = created_reply room ∧
              List.filter (named k) (serverRooms (next s a)) = [room]
  | room :: _ =>
      reply (step s a).2 = existing_reply room ∧
      serverRooms (next s a) = serverRooms s
  end.
Proof.
  intros Hk Hc. destruct a as [| |sid [|[roomName|] now rnd| | | |]]; try done.
  simpl in Hc. apply andb_true_iff in Hc as [Hauth Hname].
  apply bool_decide_eq_true in Hauth as [[rs Hrs] [u Hu]].
  apply bool_decide_eq_true in Hname.
  assert (¬ blank (Some roomName)) as Hnb.
  { unfold blank. simpl. intros E. rewrite E in Hname. by subst k. }
  unfold next, step. rewrite Hrs. simpl.
  destruct (createRoom_outcome s sid (Some roomName) now rnd)
    as [?|? ? ?|creatingUser existingRoom ? ? Hfind|creatingUser ? ? Hfind newRoom];
    simpl in *; try congruence.
  - rewrite same_name_named, Hname, find_head_filter in Hfind.
    destruct (List.filter (named k) (serverRooms s)) as [|room l]; [done|].
    by injection Hfind as ->.
  - rewrite same_name_named, Hname, find_head_filter in Hfind.
    destruct (List.filter (named k) (serverRooms s)) as [|room l] eqn:Hf; [|done].
    exists newRoom. split; [done|].
    rewrite List.filter_app, Hf. simpl. unfold named at 1. simpl.
    by rewrite bool_decide_eq_true_2.
Qed.

Lemma step_not_creates_named (k : string) (s : ServerState) (a : Action) :
  creates_named k (s, a, (step s a).2) = false →
  List.filter (named k) (serverRooms (next s a)) = List.filter (named k) (serverRooms s).
Proof.
  intros Hc. unfold next, step.
  destruct a as [sid|sid|sid req]; destruct (sockets s !! sid) as [rs|] eqn:Hrs;
    simpl; try done.
  - unfold disconnect. simpl. by destruct (serverUsers s !! sid).
  - destruct req as [username|roomName now rnd|roomId|roomId text now rnd now'
                     |roomId|]; simpl.
    + unfold login. by destruct (_ || _).
    + destruct (createRoom_outcome s sid roomName now rnd)
        as [?|? ? ?|? ? ? ? ?|creatingUser Hu Hnb Hfind newRoom]; simpl; try done.
      rewrite List.filter_app. simpl.
      destruct (named k newRoom) eqn:Hnamed; [|by rewrite app_nil_r].
      apply bool_decide_eq_true in Hnamed. simpl in Hnamed.
      apply not_blank_is_Some in Hnb. rewrite Hnb in Hc. simpl in Hc.
      apply andb_false_iff in Hc as [Hc|Hc]; apply bool_decide_eq_false in Hc.
      * destruct Hc. split; eauto.
      * done.
    + by destruct (joinRoom_outcome s sid roomId).
    + destruct (serverUsers s !! sid) as [sender|] eqn:Hsender.
      2:{ by rewrite sendMessage_unauthenticated. }
      by destruct (sendMessage_outcome s sid sender roomId text now rnd now' Hsender).
    + unfold getMessagesForRoom. by destruct (serverUsers s !! sid).
    + done.
Qed.

Lemma creations_cons (k : string) (s : ServerState) (a : Action) (acts : list Action) :
  List.filter (creates_named k) (history s (a :: acts))
  = if creates_named k (s, a, (step s a).2)
    then (s, a, (step s a).2) :: List.filter (creates_named k) (history (next s a) acts)
    else List.filter (creates_named k) (history (next s a) acts).
Proof. reflexivity. Qed.

Lemma final_cons (s : ServerState) (a : Action) (acts : list Action) :
  final s (a :: acts) = final (next s a) acts.
Proof. reflexivity. Qed.

Lemma creations_of_existing (k : string) (acts : list Action) (s : ServerState) (room : Room) :
  k ≠ "" → List.filter (named k) (serverRooms s) = [room] →
  Forall (λ r, r = existing_reply room)
    (replies_of (List.filter (creates_named k) (history s acts))) ∧
  List.filter (named k) (serverRooms (final s acts)) = [room].
Proof.
  intros Hk. revert s. induction acts as [|a acts IH]; intros s Hs.
  { split; [constructor|done]. }
  rewrite creations_cons, final_cons.
  destruct (creates_named k (s, a, (step s a).2)) eqn:Hc.
  - pose proof (step_creates_named k s a Hk Hc) as Hstep. rewrite Hs in Hstep.
    destruct Hstep as [Hreply Hrooms].
    destruct (IH (next s a)) as [Hall Hafter]; [by rewrite Hrooms|].
    split; [|done]. by constructor.
  - apply step_not_creates_named in Hc. apply IH. by rewrite Hc.
Qed.

Lemma creations_of_new (k : string) (acts : list Action) (s : ServerState) :
  k ≠ "" → List.filter (named k) (serverRooms s) = [] →
  match replies_of (List.filter (creates_named k) (history s acts)) with
  | [] => List.filter (named k) (serverRooms (final s acts)) = []
  | first :: others =>
      ∃ room, first = created_reply room ∧
              Forall (λ r, r = existing_reply room) others ∧
              List.filter (named k) (serverRooms (final s acts)) = [room]
  end.
Proof.
  intros Hk. revert s. induction acts as [|a acts IH]; intros s Hs; [done|].
  rewrite creations_cons, final_cons.
  destruct (creates_named k (s, a, (step s a).2)) eqn:Hc.
  - pose proof (step_creates_named k s a Hk Hc) as Hstep. rewrite Hs in Hstep.
    destruct Hstep as [room [Hreply Hrooms]].
    destruct (creations_of_existing k acts (next s a) room Hk Hrooms) as [Hall Hafter].
    by exists room.
  - apply step_not_creates_named in Hc. apply IH. by rewrite Hc.
Qed.

(** C2. In any run of the server, take the createRoom requests made by
    authenticated connections with names that, trimmed, are the non-empty
    name [k] up to letter case.  The first of them is answered with a new
    room and [isNew = true]; every later one is answered with that same
    room (so the same [room.id]) and [isNew = false]; and the directory
    holds exactly one room of that name, the one created by the first
    request.  If there is no such request, the directory holds no room of
    that name. *)
Theorem createRoom_names_unique_up_to_case (acts : list Action) (k : string) :
  k ≠ "" →
  match replies_of (List.filter (creates_named k) (history initial acts)) with
  | [] => List.filter (named k) (serverRooms (final initial acts)) = []
  | first :: others =>
      ∃ room, first = CreateRoomReply (Some room) (Some true) None ∧
              Forall (λ r, r = CreateRoomReply (Some room) (Some false)
                                 (Some err_room_exists)) others ∧
              List.filter (named k) (serverRooms (final initial acts)) = [room]
  end.
Proof. intros Hk. by apply creations_of_new. Qed.

Lemma createRoom_names_unique_up_to_case_witness :
  "general" ≠ "" ∧
  replies_of (List.filter (creates_named "general") (history initial scenario))
    = [created_reply (mkRoom "room-1-aaaaa" "general" (mkUser "s1" "alice"));
       existing_reply (mkRoom "room-1-aaaaa" "general" (mkUser "s1" "alice"))] ∧
  List.filter (named "general") (serverRooms (final initial scenario))
    = [mkRoom "room-1-aaaaa" "general" (mkUser "s1" "alice")].
Proof.
  assert ("general" ≠ "") as Hk by discriminate.
  assert (replies_of (List.filter (creates_named "general") (history initial scenario))
          = [created_reply (mkRoom "room-1-aaaaa" "general" (mkUser "s1" "alice"));
             existing_reply (mkRoom "room-1-aaaaa" "general" (mkUser "s1" "alice"))])
    as Hreplies by (vm_compute; reflexivity).
  split_and!; [done|done|].
  pose proof (createRoom_names_unique_up_to_case scenario "general" Hk) as H.
  rewrite Hreplies in H. destruct H as [room [[= <-] [_ H]]]. exact H.
Defined.

(** The scenario, run. *)
Example scenario_replies :
  replies_of (history initial scenario)
  = [NoReply;
     LoginReply (Some (mkUser "s1" "alice")) (Some []) None;
     created_reply (mkRoom "room-1-aaaaa" "general" (mkUser "s1" "alice"));
     NoReply;
     LoginReply (Some (mkUser "s2" "bob"))
       (Some [mkRoom "room-1-aaaaa" "general" (mkUser "s1" "alice")]) None;
     existing_reply (mkRoom "room-1-aaaaa" "general" (mkUser "s1" "alice"));
     JoinRoomReply (Some (Messages [])) None;
     SendMessageReply (Some true)
       (Some (mkMessage "msg-3-ccccc" "room-1-aaaaa" (mkUser "s1" "alice") "hi bob" 4))
       None].
Proof. vm_compute. reflexivity. Qed.

Example scenario_bob_receives :
  ∃ e, emitted (sendMessage (final initial (removelast scenario)) "s1"
                  (Some "room-1-aaaaa") (Some "hi bob") 3 "ccccc" 4).2 = [e] ∧
       "s2" ∈ recipients e ∧ "s1" ∈ recipients e.
Proof.
  eexists. split; [by vm_compute|]. split; compute_elem_of.
Qed.

(** ** Every handler but createRoom keeps single membership *)

Lemma set_sockets_single_membership (s : ServerState)
  (f : gmap string (gset string) → gmap string (gset string)) :
  (∀ sid g, g ∈ rooms_of (f (sockets s)) sid → g ≠ sid →
            g ∈ rooms_of (sockets s) sid
            ∨ ∀ g', g' ∈ rooms_of (f (sockets s)) sid → g' ≠ sid → g' = g) →
  single_membership s → single_membership (set_sockets f s).
Proof.
  intros Hf Hs sid r1 r2 H1 H2 Hn1 Hn2. unfold subscribed in *. simpl in *.
  destruct (Hf sid r1 H1 Hn1) as [Hold1|Hall]; [|symmetry; by apply Hall].
  destruct (Hf sid r2 H2 Hn2) as [Hold2|Hall]; [|by apply Hall].
  by apply (Hs sid).
Qed.

Lemma joinRoom_single_membership (s : ServerState) (sid roomId : string) :
  single_membership s → single_membership (joinRoom s sid roomId).1.
Proof.
  intros Hs.
  destruct (joinRoom_outcome s sid roomId) as [?|? ? ?|? ? ? ?]; simpl; try done.
  apply set_sockets_single_membership; [|done].
  intros sid' g Hg Hne.
  destruct (decide (sid' = sid)) as [->|Hother].
  - right. intros g' Hg' Hne'.
    apply elem_of_rooms_of_join in Hg as [[_ Hg]%elem_of_rooms_of_leave_previous|Hg];
    apply elem_of_rooms_of_join in Hg' as [[_ Hg']%elem_of_rooms_of_leave_previous|Hg'].
    + destruct (Hg eq_refl), (Hg' eq_refl); congruence.
    + destruct (Hg eq_refl), Hg' as (_ & ? & _); congruence.
    + destruct Hg as (_ & ? & _), (Hg' eq_refl); congruence.
    + destruct Hg as (_ & ? & _), Hg' as (_ & ? & _); congruence.
  - left. apply elem_of_rooms_of_join in Hg as [Hg|[? _]]; [|done].
    by apply elem_of_rooms_of_leave_previous in Hg as [? _].
Qed.

Lemma next_single_membership (s : ServerState) (a : Action) :
  (∀ sid roomName now rnd, a ≠ Emit sid (CreateRoom roomName now rnd)) →
  single_membership s → single_membership (next s a).
Proof.
  intros Hnot Hs. unfold next, step.
  destruct a as [sid|sid|sid req]; destruct (sockets s !! sid) as [rs|] eqn:Hrs;
    simpl; try done.
  - apply set_sockets_single_membership; [|done]. intros sid' g Hg Hne.
    unfold rooms_of in *. destruct (decide (sid = sid')) as [<-|?].
    + rewrite lookup_insert_eq in Hg. simpl in Hg.
      by apply elem_of_singleton in Hg.
    + rewrite lookup_insert_ne in Hg by done. by left.
  - assert (single_membership (set_sockets (delete sid) s)) as Hd.
    { apply set_sockets_single_membership; [|done]. intros sid' g Hg Hne.
      unfold rooms_of in *. destruct (decide (sid = sid')) as [<-|?].
      - rewrite lookup_delete_eq in Hg. by apply not_elem_of_empty in Hg.
      - rewrite lookup_delete_ne in Hg by done. by left. }
    unfold disconnect. simpl. by destruct (serverUsers s !! sid).
  - destruct req as [username|roomName now rnd|roomId|roomId text now rnd now'
                     |roomId|]; simpl.
    + unfold login. by destruct (_ || _).
    + by destruct (Hnot sid roomName now rnd).
    + by apply joinRoom_single_membership.
    + destruct (serverUsers s !! sid) as [sender|] eqn:Hsender.
      2:{ by rewrite sendMessage_unauthenticated. }
      by destruct (sendMessage_outcome s sid sender roomId text now rnd now' Hsender).
    + unfold getMessagesForRoom. by destruct (serverUsers s !! sid).
    + done.
Qed.

(** ** Trimming *)

Lemma trimStart_head (s : string) (c : ascii) (t : string) :
  JS.trimStart s = String c t → JS.is_white_space c = false.
Proof.
  induction s as [|a s IH]; simpl; [done|].
  destruct (JS.is_white_space a) eqn:Ha; [done|]. by intros [= <- _].
Qed.

Lemma trimEnd_head (c : ascii) (t : string) :
  JS.is_white_space c = false →
  JS.trimEnd (String c t) = String c (JS.trimEnd t).
Proof. intros Hc. simpl. rewrite Hc. by destruct (JS.trimEnd t). Qed.

Lemma trimEnd_idempotent (s : string) : JS.trimEnd (JS.trimEnd s) = JS.trimEnd s.
Proof.
  induction s as [|c s IH]; simpl; [done|].
  destruct (JS.trimEnd s) as [|a t] eqn:E.
  - destruct (JS.is_white_space c) eqn:Hc; [done|]. simpl. by rewrite Hc.
  - change (JS.trimEnd (String c (String a t))) with
      (match JS.trimEnd (String a t) with
       | EmptyString =>
           if JS.is_white_space c then EmptyString else String c EmptyString
       | u => String c u
       end).
    by rewrite IH.
Qed.

Lemma trim_idempotent (s : string) : JS.trim (JS.trim s) = JS.trim s.
Proof.
  unfold JS.trim. destruct (JS.trimStart s) as [|c t] eqn:E; [done|].
  apply trimStart_head in E. rewrite trimEnd_head by done.
  simpl JS.trimStart. rewrite E. rewrite <- trimEnd_head by done.
  apply trimEnd_idempotent.
Qed.

Lemma not_blank_trimmed (x : option string) :
  ¬ blank x → JS.trim (str x) ≠ "" ∧ JS.trim (JS.trim (str x)) = JS.trim (str x).
Proof. intros H. split; [done|apply trim_idempotent]. Qed.

(** ** The transitions of [step] *)

Lemma step_transition (s : ServerState) (a : Action) : Transition s a (step s a).
Proof.
  unfold step. destruct a as [sid|sid|sid req];
    destruct (sockets s !! sid) as [rs|] eqn:Hrs; try apply transition_silent.
  - by apply transition_connect.
  - replace (disconnect (set_sockets (delete sid) s) sid) with
      (mkState (delete sid (serverUsers s)) (serverRooms s)
         (serverMessagesByRoom s) (delete sid (sockets s))).
    { by eapply transition_disconnect. }
    unfold disconnect. simpl. destruct (serverUsers s !! sid) eqn:Hu; [done|].
    unfold set_sockets. f_equal. by apply delete_id.
  - destruct req as [username|roomName now rnd|roomId|roomId text now rnd now'
                     |roomId|]; simpl.
    + destruct (decide (blank username)) as [Hb|Hb].
      * rewrite login_blank by done. apply transition_silent.
      * rewrite login_named by done. by eapply transition_login.
    + destruct (createRoom_outcome s sid roomName now rnd);
        try apply transition_silent.
      * by eapply transition_create_existing.
      * by eapply transition_create_new.
    + destruct (joinRoom_outcome s sid roomId); try apply transition_silent.
      by eapply transition_join.
    + destruct (serverUsers s !! sid) as [sender|] eqn:Hsender.
      2:{ rewrite sendMessage_unauthenticated by done. apply transition_silent. }
      destruct (sendMessage_outcome s sid sender roomId text now rnd now' Hsender);
        try apply transition_silent.
      subst roomId. by eapply transition_send.
    + unfold getMessagesForRoom. destruct (serverUsers s !! sid);
        apply transition_silent.
    + apply transition_silent.
Qed.

(** ** Leaving the previous rooms, in closed form *)

Lemma leave_previous_alter (sid roomId : string) (t : gmap string (gset string)) :
  leave_previous sid roomId t
  = alter (filter (λ g, g = sid ∨ g = roomId)) sid t.
Proof.
  unfold leave_previous.
  transitivity (alter (λ rs, rs ∖ filter (λ g, g ≠ sid ∧ g ≠ roomId) (rooms_of t sid)) sid t).
  - apply (set_fold_ind_L
             (λ acc X, acc = alter (λ rs, rs ∖ filter (λ g, g ≠ sid ∧ g ≠ roomId) X) sid t)).
    + apply map_eq. intros k. destruct (decide (sid = k)) as [<-|Hne].
      * rewrite lookup_alter_eq. destruct (t !! sid) as [rs|]; simpl; [|done].
        f_equal. set_solver.
      * by rewrite lookup_alter_ne.
    + intros x X acc Hx ->. case_bool_decide as Hleave.
      * unfold socket_leave. rewrite alter_alter_eq.
        apply alter_ext. intros rs _. simpl. set_solver.
      * apply alter_ext. intros rs _. set_solver.
  - apply alter_ext. intros rs Hrs. unfold rooms_of. rewrite Hrs. simpl.
    apply set_eq. intros g. rewrite elem_of_difference, !elem_of_filter.
    destruct (decide (g = sid)), (decide (g = roomId)); naive_solver.
Qed.

Lemma joined_groups (sid roomId : string) (t : gmap string (gset string)) :
  socket_join sid roomId (leave_previous sid roomId t)
  = alter (λ rs, filter (λ g, g = sid ∨ g = roomId) rs ∪ {[roomId]}) sid t.
Proof. unfold socket_join. by rewrite leave_previous_alter, alter_alter_eq. Qed.

Lemma lookup_alter_is_Some (f : gset string → gset string)
  (t : gmap string (gset string)) (sid k : string) :
  is_Some (alter f sid t !! k) ↔ is_Some (t !! k).
Proof.
  destruct (decide (sid = k)) as [<-|Hne].
  - rewrite lookup_alter_eq. by rewrite fmap_is_Some.
  - by rewrite lookup_alter_ne.
Qed.

(** ** Well-formed states are kept *)

Lemma well_formed_initial : well_formed initial.
Proof.
  unfold well_formed. split_and!.
  - intros sid u H. simpl in H. by rewrite lookup_empty in H.
  - split; [by intros r ?%elem_of_nil|constructor].
  - by intros r ?%elem_of_nil.
  - apply logs_well_keyed_initial.
  - intros k log m H. simpl in H. by rewrite lookup_empty in H.
  - intros sid rs H. simpl in H. by rewrite lookup_empty in H.
Qed.

Lemma transition_identities (s : ServerState) (a : Action) (r : ServerState * Output) :
  Transition s a r → identities_well_formed s → identities_well_formed r.1.
Proof.
  intros Ht Hs.
  destruct Ht as [a r|sid Hrs|sid rs Hrs|sid rs username Hrs Hnb user
                  |sid rs u roomName now rnd existingRoom Hrs Hu Hnb Hfind
                  |sid rs u roomName now rnd Hrs Hu Hnb Hfind newRoom
                  |sid rs u roomId room Hrs Hu Hfind
                  |sid rs sender R text now rnd now' log Hrs Hu HR Hnb Hlog message];
    simpl; try done; intros sid' u'; simpl.
  - intros (? & ? & ? & Hc)%Hs. split_and!; try done.
    destruct (decide (sid = sid')) as [<-|?];
      [by rewrite lookup_insert_eq|by rewrite lookup_insert_ne].
  - intros [Hne Hu']%lookup_delete_Some. apply Hs in Hu' as (? & ? & ? & Hc).
    split_and!; try done. by rewrite lookup_delete_ne.
  - destruct (decide (sid = sid')) as [<-|Hne].
    + rewrite lookup_insert_eq. intros [= <-]. subst user. simpl.
      destruct (not_blank_trimmed username Hnb). split_and!; eauto.
    + rewrite lookup_insert_ne by done. apply Hs.
  - intros (? & ? & ? & Hc)%Hs. split_and!; try done.
    by apply lookup_alter_is_Some.
  - intros (? & ? & ? & Hc)%Hs. split_and!; try done.
    by apply lookup_alter_is_Some.
  - intros (? & ? & ? & Hc)%Hs. split_and!; try done.
    rewrite joined_groups. by apply lookup_alter_is_Some.
Qed.

Lemma find_same_name_None (trimmedRoomName : string) (l : list Room) :
  find (same_name trimmedRoomName) l = None →
  JS.toLowerCase trimmedRoomName ∉ (λ r, JS.toLowerCase (room_name r)) <$> l.
Proof.
  intros Hfind [r [Heq Hr]]%list_elem_of_fmap.
  apply list_elem_of_In in Hr. pose proof (find_none _ _ Hfind r Hr) as Hn.
  apply bool_decide_eq_false in Hn. by destruct Hn.
Qed.

Lemma transition_directory (s : ServerState) (a : Action) (r : ServerState * Output) :
  Transition s a r → directory_well_formed s → directory_well_formed r.1.
Proof.
  intros Ht Hs.
  destruct Ht as [a r|sid Hrs|sid rs Hrs|sid rs username Hrs Hnb user
                  |sid rs u roomName now rnd existingRoom Hrs Hu Hnb Hfind
                  |sid rs u roomName now rnd Hrs Hu Hnb Hfind newRoom
                  |sid rs u roomId room Hrs Hu Hfind
                  |sid rs sender R text now rnd now' log Hrs Hu HR Hnb Hlog message];
    simpl; try done.
  destruct Hs as [Hrooms Hnames]. split; simpl.
  - intros r [Hr|E%list_elem_of_singleton]%elem_of_app; [by apply Hrooms|].
    subst r newRoom. simpl. destruct (not_blank_trimmed roomName Hnb).
    split_and!; eauto.
  - rewrite fmap_app. apply NoDup_app. split_and!; [done| |apply NoDup_singleton].
    intros x Hx E%list_elem_of_singleton. subst x. simpl in Hx.
    by apply find_same_name_None in Hfind.
Qed.

Lemma transition_rooms_have_logs (s : ServerState) (a : Action) (r : ServerState * Output) :
  Transition s a r → rooms_have_logs s → rooms_have_logs r.1.
Proof.
  intros Ht Hs.
  destruct Ht as [a r|sid Hrs|sid rs Hrs|sid rs username Hrs Hnb user
                  |sid rs u roomName now rnd existingRoom Hrs Hu Hnb Hfind
                  |sid rs u roomName now rnd Hrs Hu Hnb Hfind newRoom
                  |sid rs u roomId room Hrs Hu Hfind
                  |sid rs sender R text now rnd now' log Hrs Hu HR Hnb Hlog message];
    simpl; try done; intros r; simpl.
  - intros [Hr|E%list_elem_of_singleton]%elem_of_app.
    + rewrite lookup_insert_is_Some. destruct (decide (room_id newRoom = room_id r));
        [by left|right; split; [done|by apply Hs]].
    + subst r. rewrite lookup_insert_eq. eauto.
  - intros Hr. rewrite lookup_insert_is_Some.
    destruct (decide (R = room_id r)); [by left|right; split; [done|by apply Hs]].
Qed.

Lemma transition_messages (s : ServerState) (a : Action) (r : ServerState * Output) :
  Transition s a r → identities_well_formed s →
  messages_well_formed s → messages_well_formed r.1.
Proof.
  intros Ht Hid Hs.
  destruct Ht as [a r|sid Hrs|sid rs Hrs|sid rs username Hrs Hnb user
                  |sid rs u roomName now rnd existingRoom Hrs Hu Hnb Hfind
                  |sid rs u roomName now rnd Hrs Hu Hnb Hfind newRoom
                  |sid rs u roomId room Hrs Hu Hfind
                  |sid rs sender R text now rnd now' log Hrs Hu HR Hnb Hlog message];
    simpl; try done; intros k log' m; simpl.
  - destruct (decide (room_id newRoom = k)) as [<-|Hne].
    + rewrite lookup_insert_eq. by intros [= <-] ?%elem_of_nil.
    + rewrite lookup_insert_ne by done. apply Hs.
  - destruct (decide (R = k)) as [<-|Hne].
    + rewrite lookup_insert_eq. intros [= <-] [Hm|E%list_elem_of_singleton]%elem_of_app.
      * destruct Hlog as [Hlog|(-> & _)]; [by eapply Hs|by apply elem_of_nil in Hm].
      * subst m message. simpl. destruct (not_blank_trimmed text Hnb).
        apply Hid in Hu as (_ & ? & _). by split_and!.
    + rewrite lookup_insert_ne by done. apply Hs.
Qed.

Lemma transition_groups (s : ServerState) (a : Action) (r : ServerState * Output) :
  Transition s a r → groups_well_formed s → groups_well_formed r.1.
Proof.
  intros Ht Hs.
  destruct Ht as [a r|sid Hrs|sid rs Hrs|sid rs username Hrs Hnb user
                  |sid rs u roomName now rnd existingRoom Hrs Hu Hnb Hfind
                  |sid rs u roomName now rnd Hrs Hu Hnb Hfind newRoom
                  |sid rs u roomId room Hrs Hu Hfind
                  |sid rs sender R text now rnd now' log Hrs Hu HR Hnb Hlog message];
    simpl; try done; intros sid' rs'; simpl.
  - destruct (decide (sid = sid')) as [<-|Hne].
    + rewrite lookup_insert_eq. intros [= <-]. split; [set_solver|].
      by intros g E%elem_of_singleton.
    + rewrite lookup_insert_ne by done. apply Hs.
  - intros [Hne Hrs']%lookup_delete_Some. apply Hs in Hrs' as [Hown Hother].
    split; [done|]. intros g Hg Hgne. destruct (Hother g Hg Hgne) as [Hroom Hauth].
    split; [done|]. by rewrite lookup_delete_ne.
  - intros [Hown Hother]%Hs. split; [done|]. intros g Hg Hgne.
    destruct (Hother g Hg Hgne) as [Hroom Hauth]. split; [done|].
    rewrite lookup_insert_is_Some.
    destruct (decide (sid = sid')); [by left|by right].
  - unfold socket_join. destruct (decide (sid = sid')) as [<-|Hne].
    + rewrite lookup_alter_eq, Hrs. simpl. intros [= <-].
      apply Hs in Hrs as [Hown Hother]. split; [set_solver|].
      intros g [Hg|E%elem_of_singleton]%elem_of_union Hgne; [by apply Hother|].
      subst g. split; [|by eauto]. exists existingRoom. split; [|done].
      apply find_some in Hfind as [Hin _]. by apply list_elem_of_In.
    + rewrite lookup_alter_ne by done. apply Hs.
  - assert (∀ g, (∃ r, r ∈ serverRooms s ∧ room_id r = g) →
                 ∃ r, r ∈ (serverRooms s ++ [newRoom])%list ∧ room_id r = g) as Hgrow.
    { intros g [r [Hr Hid]]. exists r. split; [|done]. apply elem_of_app. by left. }
    unfold socket_join. destruct (decide (sid = sid')) as [<-|Hne].
    + rewrite lookup_alter_eq, Hrs. simpl. intros [= <-].
      apply Hs in Hrs as [Hown Hother]. split; [set_solver|].
      intros g [Hg|E%elem_of_singleton]%elem_of_union Hgne.
      * destruct (Hother g Hg Hgne). split; [by apply Hgrow|done].
      * subst g. split; [|by eauto]. exists newRoom. split; [|done].
        apply elem_of_app. right. by apply list_elem_of_singleton.
    + rewrite lookup_alter_ne by done. intros [Hown Hother]%Hs. split; [done|].
      intros g Hg Hgne. destruct (Hother g Hg Hgne). split; [by apply Hgrow|done].
  - rewrite joined_groups. destruct (decide (sid = sid')) as [<-|Hne].
    + rewrite lookup_alter_eq, Hrs. simpl. intros [= <-].
      apply Hs in Hrs as [Hown Hother]. split.
      * apply elem_of_union. left. apply elem_of_filter. split; [by left|done].
      * intros g [[_ Hg]%elem_of_filter|E%elem_of_singleton]%elem_of_union Hgne;
          [by apply Hother|].
        subst g. split; [|by eauto]. exists room. by apply find_has_id_Some.
    + rewrite lookup_alter_ne by done. apply Hs.
Qed.

Lemma next_well_formed (s : ServerState) (a : Action) :
  well_formed s → well_formed (next s a).
Proof.
  intros (Hid & Hdir & Hlogs & Hkeyed & Hmsgs & Hgroups).
  pose proof (step_transition s a) as Ht. unfold well_formed, next. split_and!.
  - by eapply transition_identities.
  - by eapply transition_directory.
  - by eapply transition_rooms_have_logs.
  - by apply next_logs_well_keyed.
  - by eapply transition_messages.
  - by eapply transition_groups.
Qed.

Lemma reachable_well_formed (s : ServerState) : reachable s → well_formed s.
Proof.
  induction 1 as [|s a _ IH]; [apply well_formed_initial|].
  by apply next_well_formed.
Qed.

Lemma conversation_reachable : reachable conversation.
Proof. repeat apply final_reachable. constructor. Qed.

(** ** What holds in every reachable state *)

(** X1. In every reachable state, an identity is bound only under its own
    socket id and only for a connected socket, and its name is non-empty
    and has no white space at either end. *)
Theorem reachable_identities (s : ServerState) (sid : string) (u : User) :
  reachable s → serverUsers s !! sid = Some u →
  user_id u = sid ∧ user_name u ≠ "" ∧ JS.trim (user_name u) = user_name u ∧
  is_Some (sockets s !! sid).
Proof. intros Hs Hu. by apply (reachable_well_formed s Hs). Qed.

Lemma reachable_identities_witness :
  user_id (mkUser "s2" "bob") = "s2" ∧ user_name (mkUser "s2" "bob") ≠ "" ∧
  JS.trim (user_name (mkUser "s2" "bob")) = user_name (mkUser "s2" "bob") ∧
  is_Some (sockets conversation !! "s2").
Proof.
  apply (reachable_identities conversation "s2" (mkUser "s2" "bob")).
  - repeat apply final_reachable. constructor.
  - reflexivity.
Defined.

(** X2. In every reachable state, every room of the directory has a
    non-empty name without white space at either end and a generated id,
    and no two rooms of the directory have the same name up to letter
    case. *)
Theorem reachable_directory (s : ServerState) :
  reachable s →
  (∀ r, r ∈ serverRooms s →
        room_name r ≠ "" ∧ JS.trim (room_name r) = room_name r ∧
        ∃ now rnd, room_id r = fresh_room_id now rnd) ∧
  NoDup ((λ r, JS.toLowerCase (room_name r)) <$> serverRooms s).
Proof. intros Hs. by apply (reachable_well_formed s Hs). Qed.

Lemma reachable_directory_witness :
  NoDup ((λ r, JS.toLowerCase (room_name r)) <$> serverRooms two_rooms_created) ∧
  length (serverRooms two_rooms_created) = 2.
Proof.
  split; [|reflexivity].
  apply (reachable_directory two_rooms_created).
  apply final_reachable. constructor.
Defined.

(** X3. In every reachable state, the ids under which a log is filed are
    exactly the ids of the rooms of the directory: every room has its log
    from the moment it is created.  So a successful [joinRoom] returns the
    room's own log, never the [[]] of the fallback. *)
Theorem reachable_logs_of_rooms (s : ServerState) :
  reachable s →
  (∀ k, is_Some (serverMessagesByRoom s !! k)
        ↔ ∃ r, r ∈ serverRooms s ∧ room_id r = k) ∧
  (∀ sid roomId backlog,
     reply (joinRoom s sid roomId).2 = JoinRoomReply (Some backlog) None →
     ∃ log, serverMessagesByRoom s !! roomId = Some log ∧ backlog = Messages log).
Proof.
  intros Hs. destruct (reachable_well_formed s Hs) as (_ & _ & Hlogs & Hkeyed & _).
  split.
  - intros k. split.
    + intros [log Hlog]. by apply Hkeyed in Hlog as [? _].
    + intros [r [Hr <-]]. by apply Hlogs.
  - intros sid roomId backlog.
    destruct (joinRoom_outcome s sid roomId) as [?|? ? ?|user room Hu Hfind];
      simpl; try done.
    intros [= <-]. apply find_has_id_Some in Hfind as [Hr <-].
    destruct (Hlogs room Hr) as [log Hlog]. exists log. split; [done|].
    unfold JS.get. by rewrite Hlog.
Qed.

Lemma reachable_logs_of_rooms_witness :
  ∃ log, serverMessagesByRoom conversation !! "room-1-aaaaa" = Some log ∧
         Messages [mkMessage "msg-7-ccccc" "room-1-aaaaa" (mkUser "s2" "bob") "hi alice" 8]
         = Messages log.
Proof.
  apply (proj2 (reachable_logs_of_rooms conversation
                  ltac:(repeat apply final_reachable; constructor))
           "s1" "room-1-aaaaa").
  reflexivity.
Defined.

(** X4. In every reachable state, every stored message has a non-empty
    text without white space at either end and a sender with a non-empty
    name. *)
Theorem reachable_messages (s : ServerState) (k : string) (log : list Message)
  (m : Message) :
  reachable s → serverMessagesByRoom s !! k = Some log → m ∈ log →
  msg_text m ≠ "" ∧ JS.trim (msg_text m) = msg_text m ∧
  user_name (msg_sender m) ≠ "".
Proof.
  intros Hs. destruct (reachable_well_formed s Hs) as (_ & _ & _ & _ & Hm & _).
  apply Hm.
Qed.

Lemma reachable_messages_witness :
  msg_text (mkMessage "msg-7-ccccc" "room-1-aaaaa" (mkUser "s2" "bob") "hi alice" 8) ≠ "" ∧
  JS.trim (msg_text (mkMessage "msg-7-ccccc" "room-1-aaaaa" (mkUser "s2" "bob")
                       "hi alice" 8))
  = msg_text (mkMessage "msg-7-ccccc" "room-1-aaaaa" (mkUser "s2" "bob") "hi alice" 8) ∧
  user_name (msg_sender (mkMessage "msg-7-ccccc" "room-1-aaaaa" (mkUser "s2" "bob")
                           "hi alice" 8)) ≠ "".
Proof.
  apply (reachable_messages conversation "room-1-aaaaa"
           [mkMessage "msg-7-ccccc" "room-1-aaaaa" (mkUser "s2" "bob") "hi alice" 8]).
  - repeat apply final_reachable. constructor.
  - reflexivity.
  - apply list_elem_of_singleton. reflexivity.
Defined.

(** X5. In every reachable state, a connected socket is in the group
    named by its own id; every other group it is in is the id of a room of
    the directory, and a socket in such a group has logged in. *)
Theorem reachable_groups (s : ServerState) (sid : string) (rs : gset string) :
  reachable s → sockets s !! sid = Some rs →
  sid ∈ rs ∧
  ∀ g, g ∈ rs → g ≠ sid →
       (∃ r, r ∈ serverRooms s ∧ room_id r = g) ∧ is_Some (serverUsers s !! sid).
Proof.
  intros Hs. destruct (reachable_well_formed s Hs) as (_ & _ & _ & _ & _ & Hg).
  apply Hg.
Qed.

Lemma reachable_groups_witness :
  "s2" ∈ ({["s2"; "room-1-aaaaa"]} : gset string) ∧
  (∃ r, r ∈ serverRooms conversation ∧ room_id r = "room-1-aaaaa") ∧
  is_Some (serverUsers conversation !! "s2").
Proof.
  destruct (reachable_groups conversation "s2" {["s2"; "room-1-aaaaa"]})
    as [Hown Hother].
  - repeat apply final_reachable. constructor.
  - vm_compute. reflexivity.
  - split; [exact Hown|]. apply (Hother "room-1-aaaaa"); [set_solver|discriminate].
Defined.

(** ** Refusals *)

(** X6. createRoom, joinRoom and sendMessage are refused with an
    Unauthenticated error exactly when no identity is bound to the
    connection; login, getMessagesForRoom and getAllRooms never are.  A
    refused request changes nothing and emits nothing. *)
Theorem unauthenticated_iff (s : ServerState) (sid : string) (req : Request) :
  (fails_with Unauthenticated (reply (handle s sid req).2)
   ↔ serverUsers s !! sid = None ∧ requires_login req = true) ∧
  (fails_with Unauthenticated (reply (handle s sid req).2) →
   (handle s sid req).1 = s ∧ emitted (handle s sid req).2 = []).
Proof.
  assert (∀ r : Reply, reply_error r = None → ¬ fails_with Unauthenticated r) as Hnone
    by (intros r; apply fails_with_no_error).
  assert (∀ r e, reply_error r = Some e → error_kind e ≠ Some Unauthenticated →
                 ¬ fails_with Unauthenticated r) as Hother.
  { intros r e He Hk Hf. by apply (fails_with_error _ _ _ He) in Hf. }
  assert (∀ r e, reply_error r = Some e → error_kind e = Some Unauthenticated →
                 fails_with Unauthenticated r) as Hyes.
  { intros r e He Hk. by exists e. }
  destruct req as [username|roomName now rnd|roomId|roomId text now rnd now'
                   |roomId|]; simpl.
  - destruct (decide (blank username)) as [Hb|Hb].
    + rewrite login_blank by done. simpl. split; [|done].
      split; [|by intros [_ [=]]]. intros Hf. by eapply Hother in Hf.
    + rewrite login_named by done. simpl.
      split; [|by intros Hf; apply Hnone in Hf].
      split; [|by intros [_ [=]]]. intros Hf. by apply Hnone in Hf.
  - destruct (createRoom_outcome s sid roomName now rnd)
      as [Hu|u Hu ?|u r Hu ? ?|u Hu ? ? newRoom]; simpl.
    + split; [|done]. split; [done|]. intros _. by eapply Hyes.
    + split; [|by intros Hf; eapply Hother in Hf].
      split; [by intros Hf; eapply Hother in Hf|intros [? _]; congruence].
    + split; [|by intros Hf; eapply Hother in Hf].
      split; [by intros Hf; eapply Hother in Hf|intros [? _]; congruence].
    + split; [|by intros Hf; apply Hnone in Hf].
      split; [by intros Hf; apply Hnone in Hf|intros [? _]; congruence].
  - destruct (joinRoom_outcome s sid roomId) as [Hu|u Hu ?|u r Hu ?]; simpl.
    + split; [|done]. split; [done|]. intros _. by eapply Hyes.
    + split; [|by intros Hf; eapply Hother in Hf].
      split; [by intros Hf; eapply Hother in Hf|intros [? _]; congruence].
    + split; [|by intros Hf; apply Hnone in Hf].
      split; [by intros Hf; apply Hnone in Hf|intros [? _]; congruence].
  - destruct (serverUsers s !! sid) as [sender|] eqn:Hsender.
    + destruct (sendMessage_outcome s sid sender roomId text now rnd now' Hsender);
        simpl.
      * split; [|by intros Hf; eapply Hother in Hf].
        split; [by intros Hf; eapply Hother in Hf|by intros [[=] _]].
      * split; [|by intros Hf; eapply Hother in Hf].
        split; [by intros Hf; eapply Hother in Hf|by intros [[=] _]].
      * split; [|by intros Hf; apply Hnone in Hf].
        split; [by intros Hf; apply Hnone in Hf|by intros [[=] _]].
      * split; [|by intros Hf; apply Hnone in Hf].
        split; [by intros Hf; apply Hnone in Hf|by intros [[=] _]].
    + rewrite sendMessage_unauthenticated by done. simpl.
      split; [|done]. split; [done|]. intros _. by eapply Hyes.
  - unfold getMessagesForRoom. destruct (serverUsers s !! sid); simpl;
      (split; [|done]); (split; [|by intros [_ [=]]]);
      intros Hf; by apply Hnone in Hf.
  - split; [|done]. split; [|by intros [_ [=]]]. intros Hf. by apply Hnone in Hf.
Qed.

Lemma createRoom_invalid_cases
  (s : ServerState) (sid : string) (creatingUser : User) (roomName : option string)
  (now : N) (rnd : string) :
  serverUsers s !! sid = Some creatingUser →
  (fails_with InvalidInput (reply (createRoom s sid roomName now rnd).2)
   ↔ blank roomName) ∧
  (blank roomName →
   createRoom s sid roomName now rnd
   = answer s (CreateRoomReply None None (Some err_room_name_required))).
Proof.
  intros Hu.
  destruct (createRoom_outcome s sid roomName now rnd)
    as [Hn|u Hu' Hb|u r Hu' Hnb ?|u Hu' Hnb ? newRoom]; simpl; try congruence.
  - split; [|done]. split; [done|]. intros _. by exists err_room_name_required.
  - split; [|done]. split; [|done].
    intros Hf. by rewrite (fails_with_error _ _ err_room_exists) in Hf.
  - split; [|done]. split; [|done].
    intros Hf. by apply fails_with_no_error in Hf.
Qed.

Lemma unauthenticated_iff_witness :
  fails_with Unauthenticated (reply (handle initial "s1" (JoinRoom "room-1-aaaaa")).2) ∧
  (handle initial "s1" (JoinRoom "room-1-aaaaa")).1 = initial.
Proof.
  assert (fails_with Unauthenticated
            (reply (handle initial "s1" (JoinRoom "room-1-aaaaa")).2)) as Hf.
  { apply (proj1 (unauthenticated_iff initial "s1" (JoinRoom "room-1-aaaaa"))).
    split; reflexivity. }
  split; [exact Hf|].
  apply (proj2 (unauthenticated_iff initial "s1" (JoinRoom "room-1-aaaaa")) Hf).
Defined.

(** X7. For a logged-in connection, createRoom is refused as InvalidInput
    exactly when the room name is missing or trims to empty; then the state
    is unchanged and nothing is emitted: no room is made, nobody is
    notified, and the caller joins nothing. *)
Theorem createRoom_invalid_input_iff
  (s : ServerState) (sid : string) (creatingUser : User) (roomName : option string)
  (now : N) (rnd : string) :
  serverUsers s !! sid = Some creatingUser →
  (fails_with InvalidInput (reply (createRoom s sid roomName now rnd).2)
   ↔ blank roomName) ∧
  (blank roomName →
   createRoom s sid roomName now rnd
   = answer s (CreateRoomReply None None (Some err_room_name_required))).
Proof. apply createRoom_invalid_cases. Qed.

Lemma createRoom_invalid_input_iff_witness :
  createRoom alice_online "s1" (Some "   ") 1 "aaaaa"
  = answer alice_online (CreateRoomReply None None (Some err_room_name_required)).
Proof.
  apply (createRoom_invalid_input_iff alice_online "s1" (mkUser "s1" "alice")
           (Some "   ") 1 "aaaaa"); reflexivity.
Defined.

(** X8. For a logged-in connection, joinRoom is refused as NotFound
    exactly when no room of the directory has the given id (the id is
    compared as it is, not trimmed and not up to case); then the state is
    unchanged, so the caller stays in the rooms it was in. *)
Theorem joinRoom_not_found_iff
  (s : ServerState) (sid : string) (user : User) (roomId : string) :
  serverUsers s !! sid = Some user →
  (fails_with NotFound (reply (joinRoom s sid roomId).2)
   ↔ ¬ ∃ r, r ∈ serverRooms s ∧ room_id r = roomId) ∧
  (fails_with NotFound (reply (joinRoom s sid roomId).2) →
   joinRoom s sid roomId = answer s (JoinRoomReply None (Some err_room_not_found))).
Proof.
  intros Hu.
  destruct (joinRoom_outcome s sid roomId) as [Hn|u Hu' Hfind|u r Hu' Hfind];
    simpl; try congruence.
  - apply find_has_id_None in Hfind. split; [|done]. split; [done|].
    intros _. by exists err_room_not_found.
  - apply find_has_id_Some in Hfind. split.
    + split; [by intros Hf; apply fails_with_no_error in Hf|].
      intros Hno. destruct Hno. by exists r.
    + by intros Hf; apply fails_with_no_error in Hf.
Qed.

Lemma joinRoom_not_found_iff_witness :
  joinRoom general_created "s2" "ROOM-1-AAAAA"
  = answer general_created (JoinRoomReply None (Some err_room_not_found)).
Proof.
  apply (joinRoom_not_found_iff general_created "s2" (mkUser "s2" "bob") "ROOM-1-AAAAA").
  - reflexivity.
  - by exists err_room_not_found.
Defined.

(** ** Joining a room *)

Lemma joinRoom_joined (s : ServerState) (sid roomId : string) (backlog : Backlog) :
  reply (joinRoom s sid roomId).2 = JoinRoomReply (Some backlog) None →
  joinRoom s sid roomId
  = (set_sockets
       (alter (λ rs, filter (λ g, g = sid ∨ g = roomId) rs ∪ {[roomId]}) sid) s,
     mkOutput (JoinRoomReply (Some (or_empty (JS.get (serverMessagesByRoom s) roomId)))
                 None) []) ∧
  is_Some (serverUsers s !! sid) ∧ is_Some (find (has_id roomId) (serverRooms s)).
Proof.
  destruct (joinRoom_outcome s sid roomId) as [?|? ? ?|user room Hu Hfind];
    simpl; try done.
  intros _. split_and!; [|eauto|eauto].
  unfold set_sockets. by rewrite joined_groups.
Qed.

(** X9. A successful joinRoom changes the groups of the caller and
    nothing else: afterwards the caller is in the group of the room it
    asked for and, as before, in the group of its own id, and in no other
    group; the groups of the other connections, the identities, the
    directory and the logs are as before. *)
Theorem joinRoom_switches_room
  (s : ServerState) (sid roomId : string) (rs : gset string) (backlog : Backlog) :
  sockets s !! sid = Some rs →
  reply (joinRoom s sid roomId).2 = JoinRoomReply (Some backlog) None →
  let s' := (joinRoom s sid roomId).1 in
  (∀ g, subscribed s' sid g ↔ g = roomId ∨ (g = sid ∧ sid ∈ rs)) ∧
  (∀ sid', sid' ≠ sid → sockets s' !! sid' = sockets s !! sid') ∧
  serverUsers s' = serverUsers s ∧ serverRooms s' = serverRooms s ∧
  serverMessagesByRoom s' = serverMessagesByRoom s.
Proof.
  intros Hrs Hjoined s'. subst s'.
  destruct (joinRoom_joined s sid roomId backlog Hjoined) as [-> _]. simpl.
  split_and!; try done.
  - intros g. unfold subscribed, rooms_of. simpl.
    rewrite lookup_alter_eq, Hrs. simpl.
    rewrite elem_of_union, elem_of_filter, elem_of_singleton. split.
    + intros [[[->| ->] Hg]| ->]; auto.
    + intros [->|[-> Hg]]; auto.
  - intros sid' Hne. by rewrite lookup_alter_ne.
Qed.

Lemma joinRoom_switches_room_witness :
  subscribed (joinRoom two_rooms_created "s1" "room-1-aaaaa").1 "s1" "room-1-aaaaa" ∧
  ¬ subscribed (joinRoom two_rooms_created "s1" "room-1-aaaaa").1 "s1" "room-2-bbbbb".
Proof.
  destruct (joinRoom_switches_room two_rooms_created "s1" "room-1-aaaaa"
              {["s1"; "room-1-aaaaa"; "room-2-bbbbb"]} (Messages []))
    as [Hgroups _].
  - vm_compute. reflexivity.
  - reflexivity.
  - split.
    + apply Hgroups. by left.
    + intros [E|[E _]]%Hgroups; discriminate E.
Defined.

(** X10. joinRoom is idempotent: a second joinRoom for the same room,
    right after a successful one, returns the same backlog and leaves the
    state, and so the caller's single subscription to the room, as it
    is. *)
Theorem joinRoom_idempotent
  (s : ServerState) (sid roomId : string) (backlog : Backlog) :
  reply (joinRoom s sid roomId).2 = JoinRoomReply (Some backlog) None →
  joinRoom (joinRoom s sid roomId).1 sid roomId
  = ((joinRoom s sid roomId).1, (joinRoom s sid roomId).2).
Proof.
  intros Hjoined.
  destruct (joinRoom_joined s sid roomId backlog Hjoined) as (E & [u Hu] & [r Hr]).
  rewrite E. simpl. unfold joinRoom. simpl. rewrite Hu, Hr.
  unfold answer, set_sockets. simpl. rewrite joined_groups, alter_alter_eq.
  erewrite alter_ext; [reflexivity|]. intros rs _. simpl. set_solver.
Qed.

Lemma joinRoom_idempotent_witness :
  joinRoom (joinRoom general_created "s2" "room-1-aaaaa").1 "s2" "room-1-aaaaa"
  = ((joinRoom general_created "s2" "room-1-aaaaa").1,
     (joinRoom general_created "s2" "room-1-aaaaa").2).
Proof.
  apply (joinRoom_idempotent general_created "s2" "room-1-aaaaa" (Messages [])).
  reflexivity.
Defined.

(** X11. After a successful joinRoom(R) by a connected socket, a message
    that any logged-in connection then sends to a room R' (other than the
    socket's own id) is delivered to the socket exactly when R' = R: the
    messages of the room it joined reach it, those of the rooms it was in
    before no longer do. *)
Theorem joinRoom_then_delivery
  (s : ServerState) (sid R : string) (rs : gset string) (backlog : Backlog)
  (sidB R' : string) (text : option string) (now : N) (rnd : string) (now' : N)
  (m : Message) :
  sockets s !! sid = Some rs →
  reply (joinRoom s sid R).2 = JoinRoomReply (Some backlog) None →
  R' ≠ sid →
  reply (sendMessage (joinRoom s sid R).1 sidB (Some R') text now rnd now').2
    = SendMessageReply (Some true) (Some m) None →
  ∃ e, emitted (sendMessage (joinRoom s sid R).1 sidB (Some R') text now rnd now').2 = [e] ∧
       event e = newMessage m ∧
       (sid ∈ recipients e ↔ R' = R).
Proof.
  intros Hrs Hjoined Hne Hsent.
  destruct (sendMessage_recipients _ _ _ _ _ _ _ _ Hsent) as (e & He & Hev & Hrec).
  exists e. split_and!; [done|done|]. rewrite Hrec.
  destruct (joinRoom_joined s sid R backlog Hjoined) as [-> _]. simpl.
  unfold subscribed, rooms_of. simpl. rewrite lookup_alter_eq, Hrs. simpl.
  rewrite elem_of_union, elem_of_filter, elem_of_singleton. split.
  - intros [[[->| ->] _]| ->]; done.
  - intros ->. by right.
Qed.

Lemma joinRoom_then_delivery_witness :
  ∃ e, emitted (sendMessage (joinRoom bob_in_general "s1" "room-2-bbbbb").1 "s2"
                  (Some "room-1-aaaaa") (Some "hi") 7 "ccccc" 8).2 = [e] ∧
       event e = newMessage (mkMessage "msg-7-ccccc" "room-1-aaaaa" (mkUser "s2" "bob")
                               "hi" 8) ∧
       ("s1" ∈ recipients e ↔ "room-1-aaaaa" = "room-2-bbbbb").
Proof.
  apply (joinRoom_then_delivery bob_in_general "s1" "room-2-bbbbb"
           {["s1"; "room-1-aaaaa"; "room-2-bbbbb"]} (Messages [])).
  - vm_compute. reflexivity.
  - reflexivity.
  - discriminate.
  - reflexivity.
Defined.

(** X12. Single membership is kept by every action other than
    createRoom: along any run without createRoom requests that starts in a
    state where each connection is in at most one room, each connection is
    in at most one room at the end. *)
Theorem single_membership_without_createRoom (s : ServerState) (acts : list Action) :
  single_membership s → Forall creates_nothing acts →
  single_membership (final s acts).
Proof.
  intros Hs Hacts. revert s Hs.
  induction Hacts as [|a acts Ha _ IH]; intros s Hs; [done|].
  rewrite final_cons. apply IH. apply next_single_membership; [|done].
  intros sid roomName now rnd ->. done.
Qed.

Lemma single_membership_witness_state :
  single_membership (next general_created (Emit "s2" (JoinRoom "room-1-aaaaa"))).
Proof.
  cut (map_Forall
         (λ sid rs, set_Forall
                      (λ r1, set_Forall (λ r2, r1 ≠ sid → r2 ≠ sid → r1 = r2) rs) rs)
         (sockets (next general_created (Emit "s2" (JoinRoom "room-1-aaaaa"))))).
  - intros Hall sid r1 r2 [rs [Hrs H1]]%elem_of_rooms_of [rs' [Hrs' H2]]%elem_of_rooms_of.
    assert (rs' = rs) as -> by congruence.
    by apply (Hall sid rs Hrs r1 H1 r2 H2).
  - apply (bool_decide_unpack _). vm_compute. exact I.
Qed.

Lemma single_membership_without_createRoom_witness :
  single_membership
    (final (next general_created (Emit "s2" (JoinRoom "room-1-aaaaa")))
       [Emit "s1" (JoinRoom "room-1-aaaaa");
        Emit "s2" (SendMessage (Some "room-1-aaaaa") (Some "hi") 7 "ccccc" 8);
        Disconnect "s1"]).
Proof.
  apply single_membership_without_createRoom; [|repeat constructor].
  apply single_membership_witness_state.
Defined.

(** ** Sending *)

(** X13. sendMessage from a logged-in connection is accepted exactly when
    the room id is a non-empty string, the text does not trim to empty, and
    the room has a log or is a room of the directory whose id is not a name
    of [Object.prototype]; the sender need not be in the room.  An accepted
    message carries the room id, the sender's identity, the trimmed text
    and the time stamp; it is appended to the log of that room, and nothing
    else in the state changes. *)
Theorem sendMessage_accepted_iff
  (s : ServerState) (sid : string) (sender : User) (roomId text : option string)
  (now : N) (rnd : string) (now' : N) :
  serverUsers s !! sid = Some sender →
  let r := sendMessage s sid roomId text now rnd now' in
  ((∃ m, reply r.2 = SendMessageReply (Some true) (Some m) None)
   ↔ ∃ R, roomId = Some R ∧ R ≠ "" ∧ ¬ blank text ∧
          (is_Some (serverMessagesByRoom s !! R)
           ∨ (JS.is_prototype_name R = false
              ∧ ∃ room, room ∈ serverRooms s ∧ room_id room = R))) ∧
  (∀ R m, roomId = Some R →
          reply r.2 = SendMessageReply (Some true) (Some m) None →
          m = mkMessage (fresh_msg_id now rnd) R sender (JS.trim (str text)) now' ∧
          r.1 = set_messages
                  <[R := (default [] (serverMessagesByRoom s !! R) ++ [m])%list]> s).
Proof.
  intros Hsender r. subst r.
  destruct (sendMessage_outcome s sid sender roomId text now rnd now' Hsender)
    as [Hinv|R -> HR Ht Hlog Hp Hfind|R -> HR Ht Hlog Hp|R log -> HR Ht Hlog message];
    simpl.
  - split; [|by intros ? ? _ [=]]. split; [by intros [? [=]]|].
    intros (R & -> & HR & Ht & _). destruct Hinv as [|[[=]|]]; done.
  - split; [|by intros ? ? _ [=]]. split; [by intros [? [=]]|].
    intros (R' & [= <-] & _ & _ & [[? ?]|[_ Hroom]]); [congruence|].
    by apply find_has_id_None in Hfind.
  - split; [|by intros ? ? _ [=]]. split; [by intros [? [=]]|].
    intros (R' & [= <-] & _ & _ & [[? ?]|[? _]]); congruence.
  - split.
    + split; [|by eauto]. intros _. exists R. split_and!; try done.
      destruct Hlog as [Hlog|(_ & _ & Hp & [room Hroom])]; [left; eauto|].
      right. split; [done|]. exists room. by apply find_has_id_Some.
    + intros R' m [= <-] [= <-]. split; [done|].
      destruct Hlog as [->|(-> & -> & _)]; done.
Qed.

Lemma sendMessage_accepted_iff_witness :
  ∃ m, reply (sendMessage general_created "s2" (Some "room-1-aaaaa") (Some " hi ")
                7 "ccccc" 8).2
       = SendMessageReply (Some true) (Some m) None.
Proof.
  apply (sendMessage_accepted_iff general_created "s2" (mkUser "s2" "bob")
           (Some "room-1-aaaaa") (Some " hi ") 7 "ccccc" 8 eq_refl).
  exists "room-1-aaaaa". split_and!; [reflexivity|discriminate|discriminate|].
  left. vm_compute. eauto.
Defined.

(** ** Logs along a run *)

Lemma accepted_for_cons (R : string) (h : ServerState * Action * Output)
  (hs : list (ServerState * Action * Output)) :
  accepted_for R (h :: hs) = (accepted_for R [h] ++ accepted_for R hs)%list.
Proof. unfold accepted_for. simpl. by rewrite app_nil_r. Qed.

Lemma step_log (R : string) (s : ServerState) (a : Action) (log : list Message) :
  serverMessagesByRoom s !! R = Some log → keeps_id R a →
  serverMessagesByRoom (next s a) !! R
  = Some (log ++ accepted_for R [(s, a, (step s a).2)])%list.
Proof.
  intros Hlog Hkeep. unfold next, step, accepted_for.
  destruct a as [sid|sid|sid req]; destruct (sockets s !! sid); simpl;
    try (by rewrite app_nil_r).
  - unfold disconnect. simpl. rewrite app_nil_r. by destruct (serverUsers s !! sid).
  - destruct req as [username|roomName now rnd|roomId|roomId text now rnd now'
                     |roomId|]; simpl in *; rewrite ?app_nil_r.
    + unfold login. by destruct (_ || _).
    + destruct (createRoom_outcome s sid roomName now rnd); simpl; try done.
      by rewrite lookup_insert_ne.
    + by destruct (joinRoom_outcome s sid roomId).
    + destruct (serverUsers s !! sid) as [sender|] eqn:Hsender.
      2:{ rewrite sendMessage_unauthenticated by done. simpl. by rewrite app_nil_r. }
      destruct (sendMessage_outcome s sid sender roomId text now rnd now' Hsender)
        as [?|? ? ? ? ? ? ?|? ? ? ? ? ?|R' log' -> ? ? Hlog' message]; simpl;
        try (by rewrite app_nil_r).
      case_bool_decide as HR.
      * injection HR as ->. rewrite lookup_insert_eq.
        destruct Hlog' as [Hlog'|(_ & ? & _)]; congruence.
      * rewrite lookup_insert_ne by congruence. by rewrite app_nil_r.
    + unfold getMessagesForRoom. by destruct (serverUsers s !! sid).
    + done.
  - destruct req; by rewrite ?app_nil_r.
Qed.

Lemma final_log (R : string) (acts : list Action) (s : ServerState) (log : list Message) :
  serverMessagesByRoom s !! R = Some log → Forall (keeps_id R) acts →
  serverMessagesByRoom (final s acts) !! R
  = Some (log ++ accepted_for R (history s acts))%list.
Proof.
  intros Hlog Hacts. revert s log Hlog.
  induction Hacts as [|a acts Ha _ IH]; intros s log Hlog.
  { simpl. by rewrite app_nil_r. }
  rewrite final_cons. change (history s (a :: acts)) with
    ((s, a, (step s a).2) :: history (next s a) acts).
  rewrite accepted_for_cons, app_assoc. apply IH. by apply step_log.
Qed.

(** X14. Logs are append-only and keep the order of acceptance: along
    any run in which createRoom does not draw the id [R] again, the log of
    [R] at the end is the log at the start followed by the messages that
    sendMessage accepted for [R], in the order it accepted them. *)
Theorem log_is_history (R : string) (acts : list Action) (s : ServerState)
  (log : list Message) :
  serverMessagesByRoom s !! R = Some log → Forall (keeps_id R) acts →
  serverMessagesByRoom (final s acts) !! R
  = Some (log ++ accepted_for R (history s acts))%list.
Proof. apply final_log. Qed.

Lemma log_is_history_witness :
  serverMessagesByRoom
    (final conversation
       [Emit "s1" (SendMessage (Some "room-1-aaaaa") (Some "hi bob") 9 "ddddd" 10);
        Emit "s1" (CreateRoom (Some "random") 11 "eeeee");
        Emit "s2" (SendMessage (Some "room-1-aaaaa") (Some "   ") 12 "fffff" 13);
        Emit "s2" (SendMessage (Some "room-1-aaaaa") (Some "bye") 14 "ggggg" 15)])
    !! "room-1-aaaaa"
  = Some ([mkMessage "msg-7-ccccc" "room-1-aaaaa" (mkUser "s2" "bob") "hi alice" 8]
          ++ [mkMessage "msg-9-ddddd" "room-1-aaaaa" (mkUser "s1" "alice") "hi bob" 10;
              mkMessage "msg-14-ggggg" "room-1-aaaaa" (mkUser "s2" "bob") "bye" 15])%list.
Proof.
  apply (log_is_history "room-1-aaaaa"
           [Emit "s1" (SendMessage (Some "room-1-aaaaa") (Some "hi bob") 9 "ddddd" 10);
            Emit "s1" (CreateRoom (Some "random") 11 "eeeee");
            Emit "s2" (SendMessage (Some "room-1-aaaaa") (Some "   ") 12 "fffff" 13);
            Emit "s2" (SendMessage (Some "room-1-aaaaa") (Some "bye") 14 "ggggg" 15)]
           conversation).
  - reflexivity.
  - repeat constructor. discriminate.
Defined.

(** X15. createRoom assigns an empty log under the id it draws without
    looking whether the id is in use: when the id drawn for a new room is
    the id of a room that has messages, the log of that room is replaced by
    the empty log. *)
Theorem createRoom_resets_log_of_drawn_id
  (s : ServerState) (sid : string) (creatingUser : User) (roomName : option string)
  (now : N) (rnd : string) :
  serverUsers s !! sid = Some creatingUser → ¬ blank roomName →
  find (same_name (JS.trim (str roomName))) (serverRooms s) = None →
  serverMessagesByRoom (createRoom s sid roomName now rnd).1 !! fresh_room_id now rnd
  = Some [].
Proof.
  intros Hu Hnb Hfind.
  destruct (createRoom_outcome s sid roomName now rnd)
    as [?|? ? ?|? ? ? ? ?|u Hu' ? ? newRoom]; simpl; try congruence; try done.
  apply lookup_insert_eq.
Qed.

Lemma createRoom_resets_log_of_drawn_id_witness :
  serverMessagesByRoom conversation !! fresh_room_id 1 "aaaaa"
  = Some [mkMessage "msg-7-ccccc" "room-1-aaaaa" (mkUser "s2" "bob") "hi alice" 8] ∧
  serverMessagesByRoom (createRoom conversation "s2" (Some "random") 1 "aaaaa").1
    !! fresh_room_id 1 "aaaaa"
  = Some [].
Proof.
  split; [reflexivity|].
  apply (createRoom_resets_log_of_drawn_id conversation "s2" (mkUser "s2" "bob")
           (Some "random") 1 "aaaaa"); [reflexivity|discriminate|reflexivity].
Defined.

(** ** What a subscriber receives *)

Lemma delivered_to_cons (sid R : string) (h : ServerState * Action * Output)
  (hs : list (ServerState * Action * Output)) :
  delivered_to sid R (h :: hs) = (delivered_to sid R [h] ++ delivered_to sid R hs)%list.
Proof. unfold delivered_to. simpl. by rewrite app_nil_r. Qed.

Arguments events_to : simpl never.

Lemma events_to_silent (sid : string) (s : ServerState) (r : Reply) :
  events_to sid (answer s r).2 = [].
Proof. done. Qed.

Lemma events_to_nil (sid : string) (r : Reply) : events_to sid (mkOutput r []) = [].
Proof. done. Qed.

Lemma events_to_one (sid : string) (r : Reply) (to : gset string) (ev : ServerEvent) :
  events_to sid (mkOutput r [mkEmission to ev])
  = if bool_decide (sid ∈ to) then [ev] else [].
Proof. unfold events_to. simpl. by destruct (bool_decide (sid ∈ to)). Qed.

Lemma step_stream (sid R : string) (s : ServerState) (a : Action) :
  subscribed s sid R → stays sid a →
  subscribed (next s a) sid R ∧
  delivered_to sid R [(s, a, (step s a).2)] = accepted_for R [(s, a, (step s a).2)].
Proof.
  intros Hsub Hstay. unfold next, step, delivered_to, accepted_for.
  assert (is_Some (sockets s !! sid)) as Hconn.
  { apply elem_of_rooms_of in Hsub as [rs [Hrs _]]. eauto. }
  destruct a as [sid'|sid'|sid' req]; destruct (sockets s !! sid') as [rs'|] eqn:Hrs';
    simpl; rewrite ?events_to_nil; try done.
  - unfold connection. rewrite events_to_one. split.
    + unfold subscribed, rooms_of. simpl. rewrite lookup_insert_ne; [done|].
      intros ->. destruct Hconn. congruence.
    + case_bool_decide as Hin; [|done].
      apply elem_of_singleton in Hin as ->. destruct Hconn. congruence.
  - split; [|done]. simpl in Hstay. unfold subscribed, disconnect, rooms_of in *.
    cbn [serverUsers set_sockets]. destruct (serverUsers s !! sid');
      cbn [set_users set_sockets sockets]; by rewrite lookup_delete_ne.
  - destruct req as [username|roomName now rnd|roomId|roomId text now rnd now'
                     |roomId|]; simpl in *.
    + unfold login. by destruct (_ || _); simpl; rewrite ?events_to_nil.
    + destruct (createRoom_outcome s sid' roomName now rnd); simpl;
        rewrite ?events_to_nil; try done.
      * split; [|done]. unfold subscribed. simpl. apply elem_of_rooms_of_join. by left.
      * rewrite events_to_one. split.
        -- unfold subscribed. simpl. apply elem_of_rooms_of_join. by left.
        -- by case_bool_decide.
    + destruct (joinRoom_outcome s sid' roomId); simpl; rewrite ?events_to_nil;
        try done.
      split; [|done]. unfold subscribed, rooms_of. simpl. rewrite joined_groups.
      by rewrite lookup_alter_ne.
    + destruct (serverUsers s !! sid') as [sender|] eqn:Hsender.
      2:{ rewrite sendMessage_unauthenticated by done. simpl.
          by rewrite ?events_to_nil. }
      destruct (sendMessage_outcome s sid' sender roomId text now rnd now' Hsender)
        as [?|? ? ? ? ? ? ?|? ? ? ? ? ?|R' log' -> ? ? Hlog' message]; simpl;
        rewrite ?events_to_nil; try done.
      split; [done|]. rewrite events_to_one. simpl.
      destruct (decide (R' = R)) as [->|Hne].
      * rewrite (bool_decide_eq_true_2 (sid ∈ io_to R (sockets s)))
          by by apply elem_of_io_to.
        simpl. by rewrite !bool_decide_eq_true_2.
      * rewrite (bool_decide_eq_false_2 (Some R' = Some R)) by congruence.
        case_bool_decide; simpl; [|done].
        by rewrite bool_decide_eq_false_2.
    + unfold getMessagesForRoom.
      by destruct (serverUsers s !! sid'); simpl; rewrite ?events_to_nil.
    + by rewrite ?events_to_nil.
  - by destruct req.
Qed.

Lemma final_stream (sid R : string) (acts : list Action) (s : ServerState) :
  subscribed s sid R → Forall (stays sid) acts →
  delivered_to sid R (history s acts) = accepted_for R (history s acts).
Proof.
  intros Hsub Hacts. revert s Hsub.
  induction Hacts as [|a acts Ha _ IH]; intros s Hsub; [done|].
  change (history s (a :: acts)) with
    ((s, a, (step s a).2) :: history (next s a) acts).
  rewrite delivered_to_cons, accepted_for_cons.
  destruct (step_stream sid R s a Hsub Ha) as [Hsub' ->]. by rewrite IH.
Qed.

(** X16. Every subscriber of a room sees the room's log: for a socket that
    is in the group of room [R] and, during a run, neither disconnects nor
    joins a room, the messages of [R] that [newMessage] delivers to it are
    exactly the messages accepted for [R], in the same order; so the log of
    [R] at the end is the log at the start (the backlog a joinRoom would
    have returned) followed by what the socket received. *)
Theorem subscriber_sees_log (sid R : string) (acts : list Action) (s : ServerState)
  (log : list Message) :
  subscribed s sid R → serverMessagesByRoom s !! R = Some log →
  Forall (stays sid) acts → Forall (keeps_id R) acts →
  delivered_to sid R (history s acts) = accepted_for R (history s acts) ∧
  serverMessagesByRoom (final s acts) !! R
  = Some (log ++ delivered_to sid R (history s acts))%list.
Proof.
  intros Hsub Hlog Hstays Hids.
  rewrite (final_stream sid R acts s Hsub Hstays). split; [done|].
  by apply final_log.
Qed.

Lemma subscriber_sees_log_witness :
  delivered_to "s2" "room-1-aaaaa" (history conversation conversation_goes_on)
  = accepted_for "room-1-aaaaa" (history conversation conversation_goes_on) ∧
  serverMessagesByRoom (final conversation conversation_goes_on) !! "room-1-aaaaa"
  = Some ([mkMessage "msg-7-ccccc" "room-1-aaaaa" (mkUser "s2" "bob") "hi alice" 8]
          ++ delivered_to "s2" "room-1-aaaaa"
               (history conversation conversation_goes_on))%list.
Proof.
  apply (subscriber_sees_log "s2" "room-1-aaaaa" conversation_goes_on conversation).
  - compute_elem_of.
  - reflexivity.
  - repeat constructor.
  - repeat constructor. discriminate.
Defined.

Example subscriber_received :
  delivered_to "s2" "room-1-aaaaa" (history conversation conversation_goes_on)
  = [mkMessage "msg-9-ddddd" "room-1-aaaaa" (mkUser "s1" "alice") "hi bob" 10;
     mkMessage "msg-14-ggggg" "room-1-aaaaa" (mkUser "s2" "bob") "bye" 15].
Proof. vm_compute. reflexivity. Qed.

(** ** The directory along a run *)

Lemma announced_to_cons (sid : string) (h : ServerState * Action * Output)
  (hs : list (ServerState * Action * Output)) :
  announced_to sid (h :: hs) = (announced_to sid [h] ++ announced_to sid hs)%list.
Proof. unfold announced_to. simpl. by rewrite app_nil_r. Qed.

(** One step either leaves the directory alone and announces no room, or
    appends one room and announces it to every connected socket. *)
Lemma step_directory (s : ServerState) (a : Action) :
  (serverRooms (next s a) = serverRooms s
   ∧ ∀ sid, announced_to sid [(s, a, (step s a).2)] = [])
  ∨ (∃ newRoom,
       serverRooms (next s a) = (serverRooms s ++ [newRoom])%list
       ∧ ∀ sid, announced_to sid [(s, a, (step s a).2)]
                = if bool_decide (sid ∈ dom (sockets s)) then [newRoom] else []).
Proof.
  unfold next, announced_to.
  destruct (step_transition s a)
    as [a r|sid Hrs|sid rs Hrs|sid rs username Hrs Hnb user
        |sid rs u roomName now rnd existingRoom Hrs Hu Hnb Hfind
        |sid rs u roomName now rnd Hrs Hu Hnb Hfind newRoom
        |sid rs u roomId room Hrs Hu Hfind
        |sid rs sender R text now rnd now' log Hrs Hu HR Hnb Hlog message];
    cbn [fst snd answer flat_map];
    try (left; split; [done|]; intros sid0; by rewrite ?events_to_nil).
  - left. split; [done|]. intros sid0. unfold connection. rewrite events_to_one.
    by case_bool_decide.
  - right. exists newRoom. split; [done|]. intros sid0. rewrite events_to_one.
    unfold io_all. by case_bool_decide.
  - left. split; [done|]. intros sid0. rewrite events_to_one. by case_bool_decide.
Qed.

Lemma next_keeps_connection (sid : string) (s : ServerState) (a : Action) :
  is_Some (sockets s !! sid) → keeps_connection sid a →
  is_Some (sockets (next s a) !! sid).
Proof.
  intros Hconn Hkeep. unfold next.
  destruct (step_transition s a)
    as [a r|sid' Hrs|sid' rs Hrs|sid' rs username Hrs Hnb user
        |sid' rs u roomName now rnd existingRoom Hrs Hu Hnb Hfind
        |sid' rs u roomName now rnd Hrs Hu Hnb Hfind newRoom
        |sid' rs u roomId room Hrs Hu Hfind
        |sid' rs sender R text now rnd now' log Hrs Hu HR Hnb Hlog message];
    cbn [fst answer set_sockets set_users set_messages sockets]; try done.
  - rewrite lookup_insert_is_Some. destruct (decide (sid' = sid)); [by left|by right].
  - by rewrite lookup_delete_ne.
  - by apply lookup_alter_is_Some.
  - by apply lookup_alter_is_Some.
  - rewrite joined_groups. by apply lookup_alter_is_Some.
Qed.

Lemma final_directory (sid : string) (acts : list Action) (s : ServerState) :
  is_Some (sockets s !! sid) → Forall (keeps_connection sid) acts →
  serverRooms (final s acts)
  = (serverRooms s ++ announced_to sid (history s acts))%list.
Proof.
  intros Hconn Hacts. revert s Hconn.
  induction Hacts as [|a acts Ha _ IH]; intros s Hconn.
  { simpl. by rewrite app_nil_r. }
  rewrite final_cons. change (history s (a :: acts)) with
    ((s, a, (step s a).2) :: history (next s a) acts).
  rewrite announced_to_cons, app_assoc, IH by by apply next_keeps_connection.
  f_equal. destruct (step_directory s a) as [[-> Hnone]|[newRoom [-> Hone]]].
  - by rewrite Hnone, app_nil_r.
  - rewrite Hone, bool_decide_eq_true_2; [done|]. by apply elem_of_dom.
Qed.

(** X17. A connected socket is told of every new room: along any run
    during which the socket does not disconnect, the directory at the end
    is the directory at the start followed by the rooms that [roomCreated]
    announced to the socket, one announcement for each room, in order
    (whether or not the socket has logged in).  So rooms are only ever
    appended to the directory, never removed, changed or reordered. *)
Theorem connected_socket_hears_of_rooms (sid : string) (acts : list Action)
  (s : ServerState) :
  is_Some (sockets s !! sid) → Forall (keeps_connection sid) acts →
  serverRooms (final s acts)
  = (serverRooms s ++ announced_to sid (history s acts))%list.
Proof. apply final_directory. Qed.

Lemma connected_socket_hears_of_rooms_witness :
  serverRooms (final conversation conversation_goes_on)
  = (serverRooms conversation
     ++ announced_to "s2" (history conversation conversation_goes_on))%list.
Proof.
  apply (connected_socket_hears_of_rooms "s2" conversation_goes_on conversation).
  - vm_compute. eauto.
  - repeat constructor.
Defined.

Example bob_hears_of_random :
  announced_to "s2" (history conversation conversation_goes_on)
  = [mkRoom "room-11-eeeee" "random" (mkUser "s1" "alice")].
Proof. vm_compute. reflexivity. Qed.

(** ** The client's list of rooms *)

Lemma onRoomCreated_new (newRoom : Room) (prevRooms : list Room) :
  room_id newRoom ∉ room_id <$> prevRooms →
  Client.onRoomCreated newRoom prevRooms = (prevRooms ++ [newRoom])%list.
Proof.
  intros Hnew. unfold Client.onRoomCreated.
  destruct (find _ prevRooms) as [r|] eqn:Hfind; [|done].
  apply find_has_id_Some in Hfind as [Hr Hid]. destruct Hnew.
  apply list_elem_of_fmap. by exists r.
Qed.


Lemma foldl_onRoomCreated (news prevRooms : list Room) :
  NoDup (room_id <$> (prevRooms ++ news)%list) →
  foldl (λ rooms r, Client.onRoomCreated r rooms) prevRooms news
  = (prevRooms ++ news)%list.
Proof.
  revert prevRooms. induction news as [|r news IH]; intros prevRooms Hnodup; simpl.
  { by rewrite app_nil_r. }
  rewrite cons_middle, app_assoc in Hnodup.
  rewrite onRoomCreated_new.
  - rewrite IH by done. by rewrite <- app_assoc.
  - rewrite fmap_app in Hnodup. apply NoDup_app in Hnodup as [Hl _].
    rewrite fmap_app in Hl. apply NoDup_app in Hl as (_ & Hdisj & _).
    intros Hin. apply (Hdisj _ Hin). simpl. apply list_elem_of_singleton. done.
Qed.

(** X18. The client's list of rooms follows the directory: starting from
    the directory it was handed (at login, or in the greeting) and applying
    its roomCreated handler to each announcement in turn, a client that
    stays connected holds the server's directory at the end of the run,
    provided the ids in that directory are distinct (the handler drops a
    room whose id it already lists). *)
Theorem client_rooms_follow_directory (sid : string) (acts : list Action)
  (s : ServerState) :
  is_Some (sockets s !! sid) → Forall (keeps_connection sid) acts →
  NoDup (room_id <$> serverRooms (final s acts)) →
  foldl (λ rooms r, Client.onRoomCreated r rooms) (serverRooms s)
    (announced_to sid (history s acts))
  = serverRooms (final s acts).
Proof.
  intros Hconn Hacts Hnodup.
  rewrite (final_directory sid acts s Hconn Hacts) in Hnodup |- *.
  by apply foldl_onRoomCreated.
Qed.

Lemma client_rooms_follow_directory_witness :
  foldl (λ rooms r, Client.onRoomCreated r rooms) (serverRooms conversation)
    (announced_to "s2" (history conversation conversation_goes_on))
  = serverRooms (final conversation conversation_goes_on).
Proof.
  apply (client_rooms_follow_directory "s2" conversation_goes_on conversation).
  - vm_compute. eauto.
  - repeat constructor.
  - apply (bool_decide_unpack _). vm_compute. exact I.
Defined.



(** ** Reading a log *)

(** X20. getMessagesForRoom reads what joinRoom returns, without joining:
    when joinRoom(R) succeeds for one connection, getMessagesForRoom(R)
    from any logged-in connection, subscribed to R or not, hands back the
    same backlog, before and after that joinRoom, and leaves the state and
    the groups alone. *)
Theorem getMessagesForRoom_reads_backlog
  (s : ServerState) (sid R : string) (backlog : Backlog) (reader : string) :
  reply (joinRoom s sid R).2 = JoinRoomReply (Some backlog) None →
  is_Some (serverUsers s !! reader) →
  getMessagesForRoom s reader R = answer s (GetMessagesReply backlog) ∧
  getMessagesForRoom (joinRoom s sid R).1 reader R
  = answer (joinRoom s sid R).1 (GetMessagesReply backlog).
Proof.
  intros Hjoined [u Hu].
  destruct (joinRoom_joined s sid R backlog Hjoined) as [E _].
  rewrite E in Hjoined |- *. simpl in *. injection Hjoined as <-.
  unfold getMessagesForRoom. simpl. by rewrite Hu.
Qed.

Lemma getMessagesForRoom_reads_backlog_witness :
  getMessagesForRoom conversation "s1" "room-1-aaaaa"
  = answer conversation
      (GetMessagesReply
         (Messages [mkMessage "msg-7-ccccc" "room-1-aaaaa" (mkUser "s2" "bob")
                      "hi alice" 8])).
Proof.
  apply (getMessagesForRoom_reads_backlog conversation "s2" "room-1-aaaaa"
           (Messages [mkMessage "msg-7-ccccc" "room-1-aaaaa" (mkUser "s2" "bob")
                        "hi alice" 8]) "s1").
  - reflexivity.
  - vm_compute. eauto.
Defined.

(** ** Creating a room *)

Lemma find_app_None (p : Room → bool) (l : list Room) (r : Room) :
  find p l = None → p r = true → find p (l ++ [r]) = Some r.
Proof.
  intros Hnone Hr. induction l as [|x l IH]; simpl in *; [by rewrite Hr|].
  destruct (p x); [done|]. by apply IH.
Qed.

(** X21. createRoom from a logged-in connection with a name that does
    not trim to empty always hands back a room: the room is in the
    directory afterwards, it is the room that a lookup of the name up to
    letter case finds there, its name is the trimmed name up to letter
    case, and the caller, if connected, is in its group.  The room is new
    ([isNew] true, the name stored as trimmed, the caller as creator)
    exactly when no room of that name up to case was in the directory
    before. *)
Theorem createRoom_gets_or_creates
  (s : ServerState) (sid : string) (creatingUser : User) (roomName : option string)
  (now : N) (rnd : string) :
  serverUsers s !! sid = Some creatingUser → ¬ blank roomName →
  let s' := (createRoom s sid roomName now rnd).1 in
  let trimmed := JS.trim (str roomName) in
  ∃ room isNew,
    reply (createRoom s sid roomName now rnd).2
    = CreateRoomReply (Some room) (Some isNew)
        (if isNew then None else Some err_room_exists) ∧
    room ∈ serverRooms s' ∧
    find (same_name trimmed) (serverRooms s') = Some room ∧
    JS.toLowerCase (room_name room) = JS.toLowerCase trimmed ∧
    (is_Some (sockets s !! sid) → subscribed s' sid (room_id room)) ∧
    (isNew = true ↔ find (same_name trimmed) (serverRooms s) = None) ∧
    (isNew = true →
     room = mkRoom (fresh_room_id now rnd) trimmed creatingUser ∧
     serverRooms s' = (serverRooms s ++ [room])%list).
Proof.
  intros Hu Hnb s' trimmed. subst s' trimmed.
  destruct (createRoom_outcome s sid roomName now rnd)
    as [?|? ? ?|u existingRoom Hu' _ Hfind|u Hu' _ Hfind newRoom]; simpl;
    try congruence; try done.
  - exists existingRoom, false. pose proof Hfind as Hsome.
    apply find_some in Hsome as [Hin Hname].
    apply bool_decide_eq_true in Hname. split_and!; try done.
    + by apply list_elem_of_In.
    + intros Hconn. unfold subscribed. simpl. apply elem_of_rooms_of_join. by right.
    + rewrite Hfind. by split.
  - assert (u = creatingUser) as -> by congruence.
    assert (same_name (JS.trim (str roomName)) newRoom = true) as Hname
      by by apply bool_decide_eq_true.
    exists newRoom, true. split_and!; try done.
    + apply elem_of_app. right. by apply list_elem_of_singleton.
    + by apply find_app_None.
    + intros Hconn. unfold subscribed. simpl. apply elem_of_rooms_of_join. by right.
Qed.

Lemma createRoom_gets_or_creates_witness :
  ∃ room isNew,
    reply (createRoom general_created "s2" (Some " GENERAL ") 5 "ccccc").2
    = CreateRoomReply (Some room) (Some isNew)
        (if isNew then None else Some err_room_exists) ∧
    room ∈ serverRooms (createRoom general_created "s2" (Some " GENERAL ") 5 "ccccc").1 ∧
    isNew = false.
Proof.
  destruct (createRoom_gets_or_creates general_created "s2" (mkUser "s2" "bob")
              (Some " GENERAL ") 5 "ccccc")
    as (room & isNew & Hreply & Hin & _ & _ & _ & Hnew & _).
  - reflexivity.
  - discriminate.
  - exists room, isNew. split_and!; [done|done|].
    destruct isNew; [|done]. by destruct (proj1 Hnew eq_refl).
Defined.

(** ** The client's table of messages *)

Lemma receive_appends (ms : list Message) (prev : gmap string (list Message)) :
  Forall (λ m, JS.is_prototype_name (msg_roomId m) = false) ms →
  ∃ table, Client.receive ms prev = Some table ∧
    ∀ k log, prev !! k = Some log →
             table !! k
             = Some (log ++ List.filter (λ m, bool_decide (msg_roomId m = k)) ms)%list.
Proof.
  intros Hms. revert prev. induction Hms as [|m ms Hm _ IH]; intros prev.
  { exists prev. split; [done|]. intros k log ->. by rewrite app_nil_r. }
  simpl. unfold Client.onNewMessage, JS.get. rewrite Hm.
  destruct (prev !! msg_roomId m) as [old|] eqn:Hold; simpl.
  - destruct (IH (<[msg_roomId m := (old ++ [m])%list]> prev)) as (table & -> & Htable).
    exists table. split; [done|]. intros k log Hk. case_bool_decide as Hkey.
    + subst k. rewrite (Htable _ (old ++ [m])%list) by by rewrite lookup_insert_eq.
      rewrite <- app_assoc. simpl. congruence.
    + apply Htable. by rewrite lookup_insert_ne.
  - destruct (IH (<[msg_roomId m := [m]]> prev)) as (table & -> & Htable).
    exists table. split; [done|]. intros k log Hk. case_bool_decide as Hkey.
    + subst k. congruence.
    + apply Htable. by rewrite lookup_insert_ne.
Qed.

Lemma inbox_cons (sid : string) (h : ServerState * Action * Output)
  (hs : list (ServerState * Action * Output)) :
  inbox sid (h :: hs) = (inbox sid [h] ++ inbox sid hs)%list.
Proof. unfold inbox. simpl. by rewrite app_nil_r. Qed.

(** What one step delivers to a socket: nothing, or the one message that
    [sendMessage] has just appended. *)
Lemma step_inbox (sid : string) (s : ServerState) (a : Action) :
  inbox sid [(s, a, (step s a).2)] = []
  ∨ ∃ m log, inbox sid [(s, a, (step s a).2)] = [m] ∧
             (serverMessagesByRoom s !! msg_roomId m = Some log
              ∨ JS.is_prototype_name (msg_roomId m) = false).
Proof.
  unfold inbox.
  destruct (step_transition s a)
    as [a r|sid' Hrs|sid' rs Hrs|sid' rs username Hrs Hnb user
        |sid' rs u roomName now rnd existingRoom Hrs Hu Hnb Hfind
        |sid' rs u roomName now rnd Hrs Hu Hnb Hfind newRoom
        |sid' rs u roomId room Hrs Hu Hfind
        |sid' rs sender R text now rnd now' log Hrs Hu HR Hnb Hlog message];
    cbn [fst snd answer flat_map]; rewrite ?events_to_nil; try (by left).
  - left. unfold connection. rewrite events_to_one. by case_bool_decide.
  - left. rewrite events_to_one. by case_bool_decide.
  - rewrite events_to_one. case_bool_decide; [|by left].
    right. exists message, log. split; [done|]. subst message. simpl.
    destruct Hlog as [?|(_ & _ & ? & _)]; [by left|by right].
Qed.

Lemma inbox_room_ids (sid : string) (acts : list Action) (s : ServerState) :
  well_formed s →
  Forall (λ m, JS.is_prototype_name (msg_roomId m) = false) (inbox sid (history s acts)).
Proof.
  revert s. induction acts as [|a acts IH]; intros s Hs; [constructor|].
  change (history s (a :: acts)) with
    ((s, a, (step s a).2) :: history (next s a) acts).
  rewrite inbox_cons. apply Forall_app. split; [|by apply IH, next_well_formed].
  destruct (step_inbox sid s a) as [->|(m & log & -> & Hm)]; [constructor|].
  apply Forall_singleton. destruct Hm as [Hlog|?]; [|done].
  destruct Hs as (_ & [Hrooms _] & _ & Hkeyed & _).
  apply Hkeyed in Hlog as [[r [Hr <-]] _].
  destruct (Hrooms r Hr) as (_ & _ & now & rnd & ->).
  apply fresh_room_id_not_inherited.
Qed.

Lemma inbox_of_room (sid R : string) (hs : list (ServerState * Action * Output)) :
  List.filter (λ m, bool_decide (msg_roomId m = R)) (inbox sid hs)
  = delivered_to sid R hs.
Proof.
  unfold inbox, delivered_to. induction hs as [|h hs IH]; [done|].
  simpl. rewrite List.filter_app, IH. f_equal.
  induction (events_to sid h.2) as [|ev evs IHev]; [done|].
  simpl. rewrite List.filter_app, IHev. f_equal.
  by destruct ev.
Qed.

(** X22. The client's view of a room is the room's log: in a reachable
    state, let a connection join room [R] successfully and store the
    backlog in its table, and let it then handle, in order, every
    [newMessage] delivered to it during a run in which it neither
    disconnects nor joins another room (and createRoom does not draw [R]
    again).  Then no handler throws, and the table's entry for [R] is the
    server's log of [R] at the end of the run. *)
Theorem client_messages_follow_log
  (s : ServerState) (sid R : string) (log : list Message) (acts : list Action)
  (prev : gmap string (list Message)) :
  reachable s →
  reply (joinRoom s sid R).2 = JoinRoomReply (Some (Messages log)) None →
  Forall (stays sid) acts → Forall (keeps_id R) acts →
  let joined := (joinRoom s sid R).1 in
  ∃ table,
    Client.receive (inbox sid (history joined acts)) (Client.onJoined R log prev)
    = Some table ∧
    table !! R = serverMessagesByRoom (final joined acts) !! R.
Proof.
  intros Hs Hjoined Hstays Hids joined.
  assert (∃ rs, sockets s !! sid = Some rs) as [rs Hrs].
  { destruct (joinRoom_joined s sid R _ Hjoined) as (_ & [u Hu] & _).
    destruct (reachable_well_formed s Hs) as (Hid & _).
    by apply Hid in Hu as (_ & _ & _ & ?). }
  assert (joined = next s (Emit sid (JoinRoom R))) as Hnext
    by (unfold next, step; by rewrite Hrs).
  assert (reachable joined) as Hreach by (rewrite Hnext; by constructor).
  destruct (reachable_well_formed s Hs) as (_ & _ & Hlogs & _).
  destruct (joinRoom_joined s sid R _ Hjoined) as (E & _ & [room Hroom]).
  apply find_has_id_Some in Hroom as [Hroom <-].
  destruct (Hlogs room Hroom) as [log' Hlog].
  assert (log' = log) as ->.
  { apply joinRoom_backlog in Hjoined. unfold JS.get in Hjoined.
    rewrite Hlog in Hjoined. simpl in Hjoined. congruence. }
  assert (serverMessagesByRoom joined !! room_id room = Some log) as Hlog1
    by (subst joined; by rewrite E).
  assert (subscribed joined sid (room_id room)) as Hsub.
  { subst joined. rewrite E. unfold subscribed, rooms_of. simpl.
    rewrite lookup_alter_eq, Hrs. simpl. set_solver. }
  destruct (receive_appends (inbox sid (history joined acts))
              (Client.onJoined (room_id room) log prev))
    as (table & Htable & Hentry).
  { apply inbox_room_ids. by apply reachable_well_formed. }
  exists table. split; [done|].
  rewrite (Hentry (room_id room) log) by apply lookup_insert_eq.
  rewrite inbox_of_room, (final_log _ _ _ log Hlog1 Hids).
  by rewrite (final_stream sid (room_id room) acts joined Hsub Hstays).
Qed.

Lemma client_messages_follow_log_witness :
  ∃ table,
    Client.receive
      (inbox "s1" (history (joinRoom conversation "s1" "room-1-aaaaa").1
                     conversation_goes_on))
      (Client.onJoined "room-1-aaaaa"
         [mkMessage "msg-7-ccccc" "room-1-aaaaa" (mkUser "s2" "bob") "hi alice" 8] ∅)
    = Some table ∧
    table !! "room-1-aaaaa"
    = serverMessagesByRoom
        (final (joinRoom conversation "s1" "room-1-aaaaa").1 conversation_goes_on)
        !! "room-1-aaaaa".
Proof.
  apply (client_messages_follow_log conversation "s1" "room-1-aaaaa"
           [mkMessage "msg-7-ccccc" "room-1-aaaaa" (mkUser "s2" "bob") "hi alice" 8]
           conversation_goes_on ∅).
  - repeat apply final_reachable. constructor.
  - reflexivity.
  - repeat constructor.
  - repeat constructor. discriminate.
Defined.

(** ** What the client submits *)

(** X23. What the client submits passes the server's input checks: the
    login it emits is accepted and binds the name the user typed, trimmed;
    a createRoom or sendMessage it emits is never refused as InvalidInput
    when its connection has logged in. *)
Theorem client_submissions_are_valid
  (currentUser : option User) (socket : option bool) (s : ServerState) (sid : string) :
  (∀ username name,
     Client.handleLogin socket username = Some name →
     login s sid (Some name)
     = (set_users <[sid := mkUser sid (JS.trim username)]> s,
        mkOutput (LoginReply (Some (mkUser sid (JS.trim username)))
                    (Some (serverRooms s)) None) [])) ∧
  (∀ newRoomName isAppLoading roomName now rnd,
     Client.handleCreateRoomSubmit currentUser socket newRoomName isAppLoading
     = Some roomName →
     is_Some (serverUsers s !! sid) →
     ¬ fails_with InvalidInput (reply (createRoom s sid (Some roomName) now rnd).2)) ∧
  (∀ selectedRoomId newMessage isAppLoading isFetchingMessages roomId text now rnd now',
     Client.handleSendMessageSubmit currentUser socket selectedRoomId newMessage
       isAppLoading isFetchingMessages = Some (roomId, text) →
     is_Some (serverUsers s !! sid) →
     ¬ fails_with InvalidInput
         (reply (sendMessage s sid (Some roomId) (Some text) now rnd now').2)).
Proof.
  split_and!.
  - intros username name. unfold Client.handleLogin.
    case_bool_decide as Hname; [done|]. destruct socket; [|done]. intros [= <-].
    rewrite login_named.
    + simpl. by rewrite trim_idempotent.
    + unfold blank. simpl. by rewrite trim_idempotent.
  - intros newRoomName isAppLoading roomName now rnd.
    unfold Client.handleCreateRoomSubmit, Client.handleCreateRoom.
    case_bool_decide as Hname; simpl; [done|].
    destruct isAppLoading, currentUser as [cu|], socket as [[|]|]; simpl; try done.
    intros [= <-] [u Hu].
    by rewrite (proj1 (createRoom_invalid_cases s sid u (Some newRoomName) now rnd Hu)).
  - intros selectedRoomId newMessage isAppLoading isFetchingMessages roomId text
      now rnd now'.
    unfold Client.handleSendMessageSubmit, Client.handleSendMessage.
    destruct (JS.falsy selectedRoomId) eqn:Hroom; simpl; [done|].
    case_bool_decide as Htext; simpl; [done|].
    destruct isAppLoading, isFetchingMessages, currentUser as [cu|], socket as [[|]|];
      simpl; try done.
    intros [= <- <-] [u Hu].
    destruct (sendMessage_outcome s sid u (Some (str selectedRoomId)) (Some newMessage)
                now rnd now' Hu) as [Hinv|? ? ? ? ? ? ?|? ? ? ? ? ?|? ? ? ? ? ? ?];
      simpl.
    + destruct Hinv as [[=]|[[= Hempty]|Hblank]]; [|done].
      destruct selectedRoomId as [r|]; [|done]. simpl in *.
      apply bool_decide_eq_false in Hroom. done.
    + intros Hf. by rewrite (fails_with_error _ _ err_room_does_not_exist) in Hf.
    + by apply fails_with_no_error.
    + by apply fails_with_no_error.
Qed.

Lemma client_submissions_are_valid_witness :
  login initial "s1" (Some "alice")
  = (set_users <["s1" := mkUser "s1" (JS.trim "  alice ")]> initial,
     mkOutput (LoginReply (Some (mkUser "s1" (JS.trim "  alice ")))
                 (Some (serverRooms initial)) None) []) ∧
  ¬ fails_with InvalidInput
      (reply (sendMessage conversation "s1" (Some "room-1-aaaaa") (Some " hi ")
                9 "ddddd" 10).2).
Proof.
  split.
  - apply (proj1 (client_submissions_are_valid None (Some true) initial "s1")
             "  alice " "alice").
    reflexivity.
  - apply (proj2 (proj2 (client_submissions_are_valid
                           (Some (mkUser "s1" "alice")) (Some true) conversation "s1"))
             (Some "room-1-aaaaa") " hi " false false "room-1-aaaaa" " hi " 9%N "ddddd" 10%N).
    + reflexivity.
    + vm_compute. eauto.
Defined.
